(** * sqlean uuid extension: the UUID codec of [src/sqlite3-uuid.c]

    A shallow embedding of the four C functions that make up the codec
    (hex digit decoding, the formatter, the parser, the input normalizer)
    and of the three SQL entry points built on them, followed by the
    properties the specification states about them.

    Conventions of the embedding:
    - an [unsigned char] is a [Z] in [0, 256); a conversion to
      [unsigned char] is written [to_uchar] (reduction modulo 256);
    - a C buffer is a [list Z]; a pointer into it is the buffer together
      with a [nat] offset, [p++] is [p + 1];
    - every access through a pointer is checked: a read or write outside
      the buffer is the fault [OutOfBounds], a failed [assert] is the fault
      [AssertFail];  computations live in the monad [exec]. *)

From Stdlib Require Import ZArith List Lia Bool String Ascii.
From stdpp Require Import base list.
Import ListNotations.
Local Open Scope Z_scope.

(** ** The execution monad *)

Inductive fault : Type :=
  | OutOfBounds
  | AssertFail.

Inductive exec (A : Type) : Type :=
  | Done (a : A)
  | Fault (f : fault).
Arguments Done {A} a.
Arguments Fault {A} f.

Definition ebind {A B : Type} (m : exec A) (k : A -> exec B) : exec B :=
  match m with
  | Done a => k a
  | Fault f => Fault f
  end.

Notation "x <~ m ;; k" := (ebind m (fun x => k))
  (at level 100, m at level 99, right associativity).

(** [buf[p]] as an rvalue. *)
Definition load (buf : list Z) (p : nat) : exec Z :=
  match buf !! p with
  | Some v => Done v
  | None => Fault OutOfBounds
  end.

(** [buf[p] = v]. *)
Definition store (buf : list Z) (p : nat) (v : Z) : exec (list Z) :=
  if decide (p < length buf)%nat then Done (<[p := v]> buf)
  else Fault OutOfBounds.

(** [assert(b)]. *)
Definition assert (b : bool) : exec unit :=
  if b then Done tt else Fault AssertFail.

(** Conversion to [unsigned char]. *)
Definition to_uchar (v : Z) : Z := v mod 256.

(** The characters of a string literal, as [unsigned char] values. *)
Definition chars (s : string) : list Z :=
  map (fun a => Z.of_nat (nat_of_ascii a)) (list_ascii_of_string s).

(** A zero-terminated C string holding the characters [s]. *)
Definition c_str (s : list Z) : list Z := s ++ [0].

(** An array left uninitialised holds whatever the stack held. *)
Definition uninit (junk : nat -> Z) (n : nat) : list Z := map junk (seq 0 n).

(** ** <ctype.h> *)

(** [isxdigit] of the C library, for an argument in the range of
    [unsigned char]: true exactly on [0-9], [a-f], [A-F]. *)
Definition isxdigit (c : Z) : bool :=
  ((48 <=? c) && (c <=? 57)) || ((97 <=? c) && (c <=? 102))
  || ((65 <=? c) && (c <=? 70)).

(** ** sqlite3UuidHexToInt (SQLITE_ASCII) *)

(** [h] is an [int]; under the assertion it stays below 112, so the
    arithmetic on it does not overflow. *)
Definition sqlite3UuidHexToInt (h : Z) : exec Z :=
  _ <~ assert (((48 <=? h) && (h <=? 57)) || ((97 <=? h) && (h <=? 102))
               || ((65 <=? h) && (h <=? 70))) ;;
  let h := h + 9 * Z.land 1 (Z.shiftr h 6) in
  Done (to_uchar (Z.land h 15)).

(** ** sqlite3_uuid_blob_to_str *)

Definition zDigits : list Z := c_str (chars "0123456789abcdef").

(** The body of the [for] loop, run [n] more times from the state
    [(i, k, zBuf, zStr)]; the loop is entered with [n = 16], [i = 0] and
    [k = 0x550], so that [i < 16] holds exactly while [n] is not [0]. *)
Fixpoint blob_to_str_loop (n : nat) (i : nat) (k : Z) (aBlob : list Z)
    (zBuf : list Z) (zStr : nat) : exec (list Z * nat) :=
  match n with
  | O => Done (zBuf, zStr)
  | S n' =>
      st <~
        (if negb (Z.land k 1 =? 0) then
           zBuf <~ store zBuf zStr 45 ;;
           Done (zBuf, S zStr)
         else Done (zBuf, zStr)) ;;
      let '(zBuf, zStr) := st in
      x <~ load aBlob i ;;
      d <~ load zDigits (Z.to_nat (Z.shiftr x 4)) ;;
      zBuf <~ store zBuf zStr d ;;
      d <~ load zDigits (Z.to_nat (Z.land x 15)) ;;
      zBuf <~ store zBuf (zStr + 1) d ;;
      blob_to_str_loop n' (S i) (Z.shiftr k 1) aBlob zBuf (zStr + 2)
  end.

(** [zBuf] is the buffer [zStr] points to on entry; the result is that
    buffer after the call. *)
Definition sqlite3_uuid_blob_to_str (aBlob : list Z) (zBuf : list Z)
    : exec (list Z) :=
  st <~ blob_to_str_loop 16 0 1360 aBlob zBuf 0 ;;
  let '(zBuf, zStr) := st in
  store zBuf zStr 0.

(** ** sqlite3_uuid_str_to_blob *)

(** What one run of the parsing loop ends with: it either falls out of the
    loop with the cursor [zStr], or executes [return 1]. *)
Inductive loop_exit : Type :=
  | Fallthrough (zStr : nat)
  | Return1.

Fixpoint str_to_blob_loop (n : nat) (i : nat) (zBuf : list Z) (zStr : nat)
    (aBlob : list Z) : exec (loop_exit * list Z) :=
  match n with
  | O => Done (Fallthrough zStr, aBlob)
  | S n' =>
      c <~ load zBuf zStr ;;
      let zStr := if c =? 45 then S zStr else zStr in
      c0 <~ load zBuf zStr ;;
      if isxdigit c0 then
        c1 <~ load zBuf (zStr + 1) ;;
        if isxdigit c1 then
          hi <~ sqlite3UuidHexToInt c0 ;;
          lo <~ sqlite3UuidHexToInt c1 ;;
          aBlob <~ store aBlob i (to_uchar (Z.shiftl hi 4 + lo)) ;;
          str_to_blob_loop n' (S i) zBuf (zStr + 2) aBlob
        else Done (Return1, aBlob)
      else Done (Return1, aBlob)
  end.

(** [zBuf] at offset [zStr] is the input string, [aBlob] the output
    buffer on entry; the result is the returned [int] and the output
    buffer after the call. *)
Definition sqlite3_uuid_str_to_blob (zBuf : list Z) (zStr : nat)
    (aBlob : list Z) : exec (Z * list Z) :=
  c <~ load zBuf zStr ;;
  let zStr := if c =? 123 then S zStr else zStr in
  st <~ str_to_blob_loop 16 0 zBuf zStr aBlob ;;
  let '(ex, aBlob) := st in
  match ex with
  | Return1 => Done (1, aBlob)
  | Fallthrough zStr =>
      c <~ load zBuf zStr ;;
      let zStr := if c =? 125 then S zStr else zStr in
      c <~ load zBuf zStr ;;
      Done (if c =? 0 then 0 else 1, aBlob)
  end.

(** ** The host's values and results *)

(** An argument value: what [sqlite3_value_type] distinguishes, with the
    payload the codec looks at.  [sqlite3_value_text] of a text value is
    its characters followed by a terminator. *)
Inductive sqlite3_value : Type :=
  | SQLITE_INTEGER (n : Z)
  | SQLITE_FLOAT
  | SQLITE_TEXT (z : list Z)
  | SQLITE_BLOB (b : list Z)
  | SQLITE_NULL.

(** The result of an SQL function: NULL until a [sqlite3_result_*] call
    sets it. *)
Inductive sql_result : Type :=
  | NoResult
  | ResultText (z : list Z)
  | ResultBlob (b : list Z).

(** ** sqlite3_uuid_input_to_blob *)

(** Returns the scratch buffer [pBuf] after the call and the bytes behind
    the returned pointer ([None] for the null pointer). *)
Definition sqlite3_uuid_input_to_blob (pIn : sqlite3_value) (pBuf : list Z)
    : exec (list Z * option (list Z)) :=
  match pIn with
  | SQLITE_TEXT z =>
      st <~ sqlite3_uuid_str_to_blob (c_str z) 0 pBuf ;;
      let '(rc, pBuf) := st in
      if negb (rc =? 0) then Done (pBuf, None) else Done (pBuf, Some pBuf)
  | SQLITE_BLOB b =>
      let n := Z.of_nat (length b) in
      Done (pBuf, if n =? 16 then Some b else None)
  | _ => Done (pBuf, None)
  end.

(** ** The SQL functions *)

(** [uuid4()]; [rnd] is the 16 bytes [sqlite3_randomness(16, aBlob)]
    fills [aBlob] with, [junk] what the uninitialised [zStr] holds.  The
    two stamps are sums in [int], converted back to [unsigned char]. *)
Definition sqlite3_uuid (rnd : list Z) (junk : nat -> Z) : exec sql_result :=
  let zStr := uninit junk 37 in
  let aBlob := rnd in
  x <~ load aBlob 6 ;;
  aBlob <~ store aBlob 6 (to_uchar (Z.land x 15 + 64)) ;;
  x <~ load aBlob 8 ;;
  aBlob <~ store aBlob 8 (to_uchar (Z.land x 63 + 128)) ;;
  zStr <~ sqlite3_uuid_blob_to_str aBlob zStr ;;
  Done (ResultText (take 36 zStr)).

(** [uuid_str(X)]; [junk] is what the two uninitialised arrays hold. *)
Definition sqlite3_uuid_str (x : sqlite3_value) (junk : nat -> Z)
    : exec sql_result :=
  let aBlob := uninit junk 16 in
  let zStr := uninit (fun i => junk (16 + i)%nat) 37 in
  st <~ sqlite3_uuid_input_to_blob x aBlob ;;
  let '(_, pBlob) := st in
  match pBlob with
  | None => Done NoResult
  | Some pBlob =>
      zStr <~ sqlite3_uuid_blob_to_str pBlob zStr ;;
      Done (ResultText (take 36 zStr))
  end.

(** [uuid_blob(X)]. *)
Definition sqlite3_uuid_blob (x : sqlite3_value) (junk : nat -> Z)
    : exec sql_result :=
  let aBlob := uninit junk 16 in
  st <~ sqlite3_uuid_input_to_blob x aBlob ;;
  let '(_, pBlob) := st in
  match pBlob with
  | None => Done NoResult
  | Some pBlob => Done (ResultBlob (take 16 pBlob))
  end.

(** ** The inputs of the header comment *)

Definition canon : list Z := chars "a0eebc99-9c0b-4ef8-bb6d-6bb9bd380a11".

Definition canon_blob : list Z :=
  [160; 238; 188; 153; 156; 11; 78; 248; 187; 109; 107; 185; 189; 56; 10; 17].

(** * Vocabulary of the properties *)

(** The characters of a C string: none of them is the terminator. *)
Definition nul_free (s : list Z) : Prop := Forall (fun c => c <> 0) s.

(** The elements of a blob are [unsigned char] values. *)
Definition bytes (b : list Z) : Prop := Forall (fun x => 0 <= x < 256) b.

(** The parser returns 0 on the C string [s] and leaves [bs] in the output
    buffer, whatever that 16-byte buffer held before. *)
Definition accepts (s bs : list Z) : Prop :=
  forall aBlob, length aBlob = 16%nat ->
    sqlite3_uuid_str_to_blob (c_str s) 0 aBlob = Done (0, bs).

(** The parser returns 1 on the C string [s]. *)
Definition rejects (s : list Z) : Prop :=
  forall aBlob, length aBlob = 16%nat ->
    exists aBlob', sqlite3_uuid_str_to_blob (c_str s) 0 aBlob = Done (1, aBlob').

(** ** Hex digits *)

(** The value the decoder computes for the character [c]. *)
Definition hex_val (c : Z) : Z :=
  to_uchar (Z.land (c + 9 * Z.land 1 (Z.shiftr c 6)) 15).

(** The byte the parser stores for the two characters [c0 c1]. *)
Definition byte_of (c0 c1 : Z) : Z :=
  to_uchar (Z.shiftl (hex_val c0) 4 + hex_val c1).

(** The lower-case character of a hex digit character. *)
Definition tolower_hex (c : Z) : Z := if (65 <=? c) && (c <=? 70) then c + 32 else c.

Definition is_lower_hex (c : Z) : bool :=
  ((48 <=? c) && (c <=? 57)) || ((97 <=? c) && (c <=? 102)).

(** The digit of the nibble [n], as the specification words it:
    an index into [0123456789abcdef]. *)
Definition spec_digit (n : Z) : Z := if n <? 10 then 48 + n else 87 + n.

(** A byte as two lower-case hex digits, high nibble first. *)
Definition spec_hexpair (x : Z) : list Z := [spec_digit (x / 16); spec_digit (x mod 16)].

Definition spec_hex (b : list Z) : list Z := flat_map spec_hexpair b.

(** The canonical text of a blob as the specification words it: groups of
    4, 2, 2, 2 and 6 bytes, a hyphen between two groups. *)
Definition spec_format (b : list Z) : list Z :=
  spec_hex (take 4 b) ++ [45] ++ spec_hex (take 2 (drop 4 b)) ++ [45]
  ++ spec_hex (take 2 (drop 6 b)) ++ [45] ++ spec_hex (take 2 (drop 8 b))
  ++ [45] ++ spec_hex (drop 10 b).

(** ** Pure readings of the loops and the shape of the strings *)

(** The characters the loop writes for the bytes [bs] when it starts with
    the hyphen mask [k]. *)
Fixpoint render (k : Z) (bs : list Z) : list Z :=
  match bs with
  | [] => []
  | x :: bs' =>
      (if negb (Z.land k 1 =? 0) then [45] else [])
      ++ spec_hexpair x ++ render (Z.shiftr k 1) bs'
  end.

(** [if (zStr[0] == '-') zStr++], read off the characters at the cursor. *)
Definition skip_hyphen (s : list Z) : list Z :=
  match s with
  | c :: t => if c =? 45 then t else s
  | [] => []
  end.

(** The parsing loop read off the characters of the string alone: [n]
    byte groups are taken from [s]; the result is the bytes and the
    characters left, or [None] where the loop returns 1. *)
Fixpoint scan (n : nat) (s : list Z) : option (list Z * list Z) :=
  match n with
  | O => Some ([], s)
  | S n' =>
      match skip_hyphen s with
      | c0 :: c1 :: t =>
          if isxdigit c0 && isxdigit c1 then
            match scan n' t with
            | Some (bs, r) => Some (byte_of c0 c1 :: bs, r)
            | None => None
            end
          else None
      | _ => None
      end
  end.

(** The bytes the loop has stored when it ends, by falling through or by
    [return 1]. *)
Fixpoint scan_written (n : nat) (s : list Z) : list Z :=
  match n with
  | O => []
  | S n' =>
      match skip_hyphen s with
      | c0 :: c1 :: t =>
          if isxdigit c0 && isxdigit c1 then byte_of c0 c1 :: scan_written n' t
          else []
      | _ => []
      end
  end.

(** The buffer [buf] with [bs] written over it from the offset [i] on. *)
Definition overwrite (i : nat) (bs buf : list Z) : list Z :=
  take i buf ++ bs ++ drop (i + length bs) buf.

(** How the loop ends. *)
Definition scan_exit (p : nat) (s : list Z) (o : option (list Z * list Z))
    : loop_exit :=
  match o with
  | Some (_, r) => Fallthrough (p + (length s - length r))
  | None => Return1
  end.

(** [if (zStr[0] == ch) zStr++], read off the characters at the cursor. *)
Definition skip_char (ch : Z) (s : list Z) : list Z :=
  match s with
  | c :: t => if c =? ch then t else s
  | [] => []
  end.

(** The parser read off the characters of the string alone. *)
Definition parse (s : list Z) : option (list Z) :=
  match scan 16 (skip_char 123 s) with
  | Some (bs, r) =>
      match skip_char 125 r with
      | [] => Some bs
      | _ :: _ => None
      end
  | None => None
  end.

(** What the parser leaves in the output buffer [aBlob]. *)
Definition written (s aBlob : list Z) : list Z :=
  overwrite 0 (scan_written 16 (skip_char 123 s)) aBlob.

(** An optional character. *)
Definition opt_char (b : bool) (ch : Z) : list Z := if b then [ch] else [].

(** A byte group of the input: an optional hyphen and two characters. *)
Record grp : Type := Grp { g_hyphen : bool; g_hi : Z; g_lo : Z }.

Definition grp_chars (g : grp) : list Z :=
  opt_char (g_hyphen g) 45 ++ [g_hi g; g_lo g].

Definition grp_ok (g : grp) : bool := isxdigit (g_hi g) && isxdigit (g_lo g).

Definition grp_byte (g : grp) : Z := byte_of (g_hi g) (g_lo g).

Definition groups_chars (gs : list grp) : list Z := flat_map grp_chars gs.

(** The loose form of a UUID: 16 byte groups, each with its optional
    hyphen, between an optional opening and an optional closing brace. *)
Definition loose (ob : bool) (gs : list grp) (cb : bool) : list Z :=
  opt_char ob 123 ++ groups_chars gs ++ opt_char cb 125.

Definition hex_count (s : list Z) : nat := length (List.filter isxdigit s).

Definition byte_grp (hy : bool) (x : Z) : grp :=
  Grp hy (spec_digit (x / 16)) (spec_digit (x mod 16)).

(** Where the canonical text has its hyphens: before the bytes 4, 6, 8
    and 10. *)
Definition canon_hyphens : list bool :=
  [false; false; false; false; true; false; true; false;
   true; false; true; false; false; false; false; false].

Definition canon_groups (b : list Z) : list grp :=
  zip_with byte_grp canon_hyphens b.

Definition hyphen_at (i : nat) : bool :=
  (i =? 8)%nat || (i =? 13)%nat || (i =? 18)%nat || (i =? 23)%nat.

Fixpoint pattern_from (i : nat) (u : list Z) : bool :=
  match u with
  | [] => true
  | c :: t =>
      (if hyphen_at i then c =? 45 else is_lower_hex c) && pattern_from (S i) t
  end.

(** [xxxxxxxx-xxxx-xxxx-xxxx-xxxxxxxxxxxx]: 36 characters, a hyphen at the
    offsets 8, 13, 18 and 23, a lower-case hex digit everywhere else. *)
Definition canonical_pattern (u : list Z) : bool :=
  (length u =? 36)%nat && pattern_from 0 u.

(** The characters of the string a text value holds, as C sees it: those
    before the first zero. *)
Fixpoint c_text (z : list Z) : list Z :=
  match z with
  | [] => []
  | c :: t => if c =? 0 then [] else c :: c_text t
  end.

(** Whether the string starts with two hex digits. *)
Definition hex_pair_at (t : list Z) : bool :=
  match t with
  | c0 :: c1 :: _ => isxdigit c0 && isxdigit c1
  | _ => false
  end.

Definition is_punct (c : Z) : bool := (c =? 123) || (c =? 125) || (c =? 45).

(** The UUID a loose string denotes: its characters without braces and
    hyphens, in lower case. *)
Definition uuid_digits (s : list Z) : list Z :=
  map tolower_hex (List.filter (fun c => negb (is_punct c)) s).

(** 32 digits in groups of 8, 4, 4, 4 and 12 with hyphens between. *)
Definition hyphenate (h : list Z) : list Z :=
  take 8 h ++ [45] ++ take 4 (drop 8 h) ++ [45] ++ take 4 (drop 12 h) ++ [45]
  ++ take 4 (drop 16 h) ++ [45] ++ drop 20 h.

(** ** Vocabulary of the further properties *)

(** A value whose blob payload, if it has one, is made of [unsigned char]s. *)
Definition value_ok (x : sqlite3_value) : Prop :=
  match x with
  | SQLITE_BLOB b => bytes b
  | _ => True
  end.

(** The normalizer read off the value alone: the 16 bytes behind the
    pointer it returns, [None] for the null pointer. *)
Definition normalize (x : sqlite3_value) : option (list Z) :=
  match x with
  | SQLITE_TEXT z => parse (c_text z)
  | SQLITE_BLOB b => if (length b =? 16)%nat then Some b else None
  | _ => None
  end.

(** The number of hyphens the formatting loop writes in [n] turns that
    start with the mask [k]. *)
Fixpoint mask_bits (n : nat) (k : Z) : nat :=
  match n with
  | O => O
  | S n' =>
      let rest := mask_bits n' (Z.shiftr k 1) in
      if negb (Z.land k 1 =? 0) then S rest else rest
  end.

(** The six bits of a random fill that the version and variant stamps
    overwrite are set to zero. *)
Definition unstamped (rnd : list Z) : list Z :=
  match rnd !! 6%nat, rnd !! 8%nat with
  | Some b6, Some b8 =>
      <[8%nat := Z.land b8 63]> (<[6%nat := Z.land b6 15]> rnd)
  | _, _ => rnd
  end.

(** The version and variant stamps of [uuid4()] on a random fill. *)
Definition stamp (rnd : list Z) : list Z :=
  match rnd !! 6%nat, rnd !! 8%nat with
  | Some b6, Some b8 =>
      <[8%nat := Z.lor (Z.land b8 63) 128]>
        (<[6%nat := Z.lor (Z.land b6 15) 64]> rnd)
  | _, _ => rnd
  end.

(** * Proofs *)

(** ** The examples of the header comment *)

Example uuid_str_upper junk :
  sqlite3_uuid_str (SQLITE_TEXT (chars "A0EEBC99-9C0B-4EF8-BB6D-6BB9BD380A11")) junk
  = Done (ResultText canon).
Proof. reflexivity. Qed.

Example uuid_str_dashes junk :
  sqlite3_uuid_str (SQLITE_TEXT (chars "a0ee-bc99-9c0b-4ef8-bb6d-6bb9-bd38-0a11")) junk
  = Done (ResultText canon).
Proof. reflexivity. Qed.

Example uuid_blob_plain junk :
  sqlite3_uuid_blob (SQLITE_TEXT (chars "a0eebc999c0b4ef8bb6d6bb9bd380a11")) junk
  = Done (ResultBlob canon_blob).
Proof. reflexivity. Qed.

Example uuid_str_not_a_uuid junk :
  sqlite3_uuid_str (SQLITE_TEXT (chars "not-a-uuid")) junk = Done NoResult.
Proof. reflexivity. Qed.

(** ** Checking a decidable fact on every value of a range *)

Lemma range_check (P : Z -> bool) (lo : Z) (n : nat) :
  forallb P (map (fun k => lo + Z.of_nat k) (seq 0 n)) = true ->
  forall x, lo <= x < lo + Z.of_nat n -> P x = true.
Proof.
  intros Hall x Hx.
  rewrite forallb_forall in Hall. apply Hall.
  apply in_map_iff. exists (Z.to_nat (x - lo)). split; [lia|].
  apply in_seq. lia.
Qed.

Lemma nibble_facts n :
  0 <= n < 16 ->
  zDigits !! Z.to_nat n = Some (spec_digit n)
  /\ isxdigit (spec_digit n) = true
  /\ is_lower_hex (spec_digit n) = true
  /\ hex_val (spec_digit n) = n.
Proof.
  intros Hn.
  pose (P := fun n => bool_decide (zDigits !! Z.to_nat n = Some (spec_digit n))
                     && isxdigit (spec_digit n) && is_lower_hex (spec_digit n)
                     && (hex_val (spec_digit n) =? n)).
  assert (HP : P n = true) by (apply (range_check P 0 16); [reflexivity | lia]).
  unfold P in HP. rewrite !andb_true_iff in HP.
  destruct HP as [[[H1 H2] H3] H4].
  apply bool_decide_eq_true in H1. apply Z.eqb_eq in H4. auto.
Qed.

Lemma byte_nibbles x :
  0 <= x < 256 ->
  Z.shiftr x 4 = x / 16 /\ Z.land x 15 = x mod 16
  /\ 0 <= x / 16 < 16 /\ 0 <= x mod 16 < 16.
Proof.
  intros Hx. split; [|split].
  - rewrite Z.shiftr_div_pow2 by lia. reflexivity.
  - change 15 with (Z.ones 4). rewrite Z.land_ones by lia. reflexivity.
  - split; [split|].
    + apply Z.div_pos; lia.
    + apply Z.div_lt_upper_bound; lia.
    + apply Z.mod_pos_bound; lia.
Qed.

Lemma isxdigit_range c : isxdigit c = true -> 48 <= c < 48 + Z.of_nat 55.
Proof. unfold isxdigit. lia. Qed.

Lemma hex_char_facts c :
  isxdigit c = true ->
  0 <= hex_val c < 16
  /\ spec_digit (hex_val c) = tolower_hex c
  /\ sqlite3UuidHexToInt c = Done (hex_val c)
  /\ c <> 0 /\ c <> 45 /\ c <> 123 /\ c <> 125.
Proof.
  intros Hc.
  pose (P := fun c => implb (isxdigit c)
     ((0 <=? hex_val c) && (hex_val c <? 16)
      && (spec_digit (hex_val c) =? tolower_hex c))).
  assert (HP : P c = true)
    by (apply (range_check P 48 55); [reflexivity | by apply isxdigit_range]).
  unfold P in HP. rewrite Hc in HP. simpl in HP.
  rewrite !andb_true_iff in HP. destruct HP as [[H1 H2] H3].
  split; [lia|]. split; [lia|]. split.
  - unfold sqlite3UuidHexToInt. fold (isxdigit c). rewrite Hc. reflexivity.
  - unfold isxdigit in Hc. lia.
Qed.

Lemma byte_of_pair x :
  0 <= x < 256 ->
  byte_of (spec_digit (x / 16)) (spec_digit (x mod 16)) = x.
Proof.
  intros Hx. destruct (byte_nibbles x Hx) as (_ & _ & Hhi & Hlo).
  unfold byte_of.
  destruct (nibble_facts _ Hhi) as (_ & _ & _ & ->).
  destruct (nibble_facts _ Hlo) as (_ & _ & _ & ->).
  rewrite Z.shiftl_mul_pow2 by lia. unfold to_uchar.
  change (2 ^ 4) with 16.
  rewrite Z.mod_small by lia.
  pose proof (Z.div_mod x 16). lia.
Qed.

(** ** Reads and writes in the middle of a buffer *)

Lemma load_mid buf p w x t :
  buf = w ++ x :: t -> p = length w -> load buf p = Done x.
Proof.
  intros -> ->. unfold load.
  by rewrite list_lookup_middle.
Qed.

Lemma store_mid buf p v w x t :
  buf = w ++ x :: t -> p = length w -> store buf p v = Done (w ++ v :: t).
Proof.
  intros -> ->. unfold store.
  destruct (decide _) as [_|Hn].
  - f_equal. replace (length w) with (length w + 0)%nat by lia.
    by rewrite insert_app_r.
  - exfalso. apply Hn. rewrite length_app. simpl. lia.
Qed.

Lemma load_drop buf p k : load buf (p + k) = load (drop p buf) k.
Proof. unfold load. by rewrite lookup_drop. Qed.

Lemma load_drop0 buf p : load buf p = load (drop p buf) 0.
Proof. rewrite <- load_drop. f_equal. lia. Qed.

Lemma load_some buf p v : buf !! p = Some v -> load buf p = Done v.
Proof. intros H. unfold load. by rewrite H. Qed.

Lemma store_some buf p v :
  (p < length buf)%nat -> store buf p v = Done (<[p := v]> buf).
Proof. intros Hp. unfold store. by destruct (decide _). Qed.

(** ** The formatter *)

Lemma render_spec_format b :
  length b = 16%nat -> render 1360 b = spec_format b.
Proof.
  intros Hb.
  do 16 (destruct b as [|? b]; [discriminate Hb|]).
  destruct b; [reflexivity | discriminate Hb].
Qed.

Lemma render_length_ge k bs : (2 * length bs <= length (render k bs))%nat.
Proof.
  revert k. induction bs as [|x bs IH]; intros k; simpl; [lia|].
  specialize (IH (Z.shiftr k 1)). rewrite length_app. simpl. lia.
Qed.

Lemma blob_to_str_loop_spec bs :
  forall pre post k w t,
    bytes bs ->
    (length (render k bs) <= length t)%nat ->
    blob_to_str_loop (length bs) (length pre) k (pre ++ bs ++ post)
      (w ++ t) (length w)
    = Done (w ++ render k bs ++ drop (length (render k bs)) t,
            (length w + length (render k bs))%nat).
Proof.
  induction bs as [|x bs IH]; intros pre post k w t Hb Hlen.
  - simpl. rewrite Nat.add_0_r. reflexivity.
  - apply Forall_cons in Hb as [Hx Hb].
    destruct (byte_nibbles x Hx) as (Hs & Hl & Hhi & Hlo).
    destruct (nibble_facts _ Hhi) as (Dhi & _).
    destruct (nibble_facts _ Hlo) as (Dlo & _).
    pose proof (render_length_ge (Z.shiftr k 1) bs) as Hge.
    cbn [length blob_to_str_loop render] in *.
    set (hy := if negb (Z.land k 1 =? 0) then [45] else []) in *.
    rewrite !length_app in Hlen. cbn [length spec_hexpair] in Hlen.
    assert (Hhy : exists t1, (length hy <= length t)%nat
              /\ t = take (length hy) t ++ t1
              /\ (if negb (Z.land k 1 =? 0) then
                    zBuf <~ store (w ++ t) (length w) 45 ;; Done (zBuf, S (length w))
                  else Done (w ++ t, length w))
                 = Done ((w ++ hy) ++ t1, length (w ++ hy))).
    { subst hy. destruct (negb _).
      - destruct t as [|t0 t]; [simpl in Hlen; lia|].
        exists t. split; [simpl; lia|]. split; [reflexivity|].
        erewrite store_mid by reflexivity. cbn [ebind].
        rewrite length_app, <- app_assoc. simpl. do 2 f_equal. lia.
      - exists t. split; [simpl; lia|]. split; [reflexivity|].
        rewrite app_nil_r. reflexivity. }
    destruct Hhy as (t1 & Hhl & Ht & ->). cbn [ebind].
    assert (Ht1 : (length t = length hy + length t1)%nat).
    { rewrite Ht at 1. rewrite length_app, length_take. lia. }
    destruct t1 as [|a [|b t2]]; [simpl in Ht1; lia..|].
    erewrite (load_mid _ _ pre x) by reflexivity. cbn [ebind].
    unfold load at 1. rewrite Hs, Dhi. cbn [ebind].
    erewrite store_mid by reflexivity. cbn [ebind].
    unfold load at 1. rewrite Hl, Dlo. cbn [ebind].
    erewrite (store_mid _ _ _ ((w ++ hy) ++ [spec_digit (x / 16)]))
      by (rewrite ?length_app; simpl; rewrite <- ?app_assoc; reflexivity).
    cbn [ebind].
    specialize (IH (pre ++ [x]) post (Z.shiftr k 1)
                  (w ++ hy ++ spec_hexpair x) t2 Hb).
    replace (S (length pre)) with (length (pre ++ [x]))
      by (rewrite length_app; simpl; lia).
    replace (pre ++ (x :: bs) ++ post) with ((pre ++ [x]) ++ bs ++ post)
      by (rewrite <- app_assoc; reflexivity).
    replace (length (w ++ hy) + 2)%nat with (length (w ++ hy ++ spec_hexpair x))
      by (rewrite !length_app; simpl; lia).
    replace (((w ++ hy) ++ [spec_digit (x / 16)]) ++ spec_digit (x mod 16) :: t2)
      with ((w ++ hy ++ spec_hexpair x) ++ t2)
      by (unfold spec_hexpair; rewrite <- !app_assoc; reflexivity).
    rewrite IH by (simpl in Ht1; lia).
    f_equal. f_equal.
    + rewrite <- !app_assoc. do 3 f_equal.
      rewrite Ht at 1.
      rewrite drop_app_ge by (rewrite length_take, !length_app; lia).
      rewrite length_take, !length_app. cbn [length spec_hexpair].
      replace (_ - _)%nat with (2 + length (render (Z.shiftr k 1) bs))%nat by lia.
      reflexivity.
    + rewrite !length_app. simpl. lia.
Qed.

Lemma spec_format_length b : length b = 16%nat -> length (spec_format b) = 36%nat.
Proof.
  intros Hb.
  do 16 (destruct b as [|? b]; [discriminate Hb|]).
  destruct b; [reflexivity | discriminate Hb].
Qed.

(** The formatter on a 16-byte blob and a buffer of at least 37 bytes:
    it writes the canonical text and a terminator, and nothing else. *)
Lemma blob_to_str_spec b zBuf :
  length b = 16%nat -> bytes b -> (37 <= length zBuf)%nat ->
  sqlite3_uuid_blob_to_str b zBuf = Done (spec_format b ++ 0 :: drop 37 zBuf).
Proof.
  intros Hlen Hb Hz.
  pose proof (spec_format_length b Hlen) as H36.
  pose proof (blob_to_str_loop_spec b [] [] 1360 [] zBuf Hb) as Hloop.
  rewrite (render_spec_format b Hlen), H36, Hlen, app_nil_r in Hloop.
  cbn [length app Nat.add] in Hloop.
  unfold sqlite3_uuid_blob_to_str. rewrite Hloop by lia. cbn [ebind].
  destruct (drop 36 zBuf) as [|x t] eqn:Hd.
  { apply (f_equal length) in Hd. rewrite length_drop in Hd. simpl in Hd. lia. }
  assert (Ht : drop 37 zBuf = t).
  { change 37%nat with (36 + 1)%nat. rewrite <- drop_drop, Hd. reflexivity. }
  rewrite Ht. apply store_mid with (x := x); [reflexivity | by rewrite H36].
Qed.

(** ** The parser *)

Lemma nul_free_cons c s : nul_free (c :: s) <-> c <> 0 /\ nul_free s.
Proof. unfold nul_free. by rewrite Forall_cons. Qed.

Lemma nul_free_check s :
  forallb (fun c => negb (c =? 0)) s = true -> nul_free s.
Proof.
  intros H. apply Forall_forall. intros c Hc.
  rewrite forallb_forall in H. apply list_elem_of_In, H in Hc. lia.
Qed.

Lemma nul_free_app s t : nul_free (s ++ t) <-> nul_free s /\ nul_free t.
Proof. unfold nul_free. by rewrite Forall_app. Qed.

Lemma skip_hyphen_suffix s : exists u, s = u ++ skip_hyphen s.
Proof.
  destruct s as [|c t]; simpl; [by exists []|].
  destruct (c =? 45); [by exists [c] | by exists []].
Qed.

Lemma scan_suffix n : forall s bs r,
  scan n s = Some (bs, r) -> length bs = n /\ exists u, s = u ++ r.
Proof.
  induction n as [|n IH]; intros s bs r H; simpl in H.
  - inversion H; subst. split; [reflexivity | by exists []].
  - destruct (skip_hyphen_suffix s) as [u Hu].
    destruct (skip_hyphen s) as [|c0 [|c1 t]]; try discriminate.
    destruct (isxdigit c0 && isxdigit c1); try discriminate.
    destruct (scan n t) as [[bs' r']|] eqn:Hs; try discriminate.
    inversion H; subst bs r. destruct (IH _ _ _ Hs) as [Hl [v Hv]].
    split; [simpl; lia|]. exists (u ++ c0 :: c1 :: v).
    rewrite Hu, Hv, <- app_assoc. reflexivity.
Qed.

Lemma drop_cons_inv (zBuf : list Z) p x l :
  drop p zBuf = x :: l -> load zBuf p = Done x /\ drop (S p) zBuf = l.
Proof.
  intros Hd. split.
  - rewrite load_drop0, Hd. reflexivity.
  - replace (S p) with (p + 1)%nat by lia. rewrite <- drop_drop, Hd. reflexivity.
Qed.

(** The test of the two digit characters and the assignment to
    [aBlob[i]], with the rest of the loop as the continuation [K]. *)
Lemma digits_step (K : nat -> list Z -> exec (loop_exit * list Z))
    i zBuf q s rest aBlob :
  drop q zBuf = s ++ 0 :: rest -> nul_free s -> (i < length aBlob)%nat ->
  (c0 <~ load zBuf q ;;
   if isxdigit c0 then
     c1 <~ load zBuf (q + 1) ;;
     if isxdigit c1 then
       hi <~ sqlite3UuidHexToInt c0 ;;
       lo <~ sqlite3UuidHexToInt c1 ;;
       aBlob' <~ store aBlob i (to_uchar (Z.shiftl hi 4 + lo)) ;;
       K (q + 2)%nat aBlob'
     else Done (Return1, aBlob)
   else Done (Return1, aBlob))
  = match s with
    | c0 :: c1 :: _ =>
        if isxdigit c0 && isxdigit c1 then
          K (q + 2)%nat (<[i := byte_of c0 c1]> aBlob)
        else Done (Return1, aBlob)
    | _ => Done (Return1, aBlob)
    end.
Proof.
  intros Hd Hs Hi.
  destruct s as [|c0 s].
  { apply drop_cons_inv in Hd as [-> _]. reflexivity. }
  simpl in Hd. apply drop_cons_inv in Hd as [-> Hd]. cbn [ebind].
  destruct (isxdigit c0) eqn:H0.
  2:{ by destruct s as [|? ?]. }
  replace (q + 1)%nat with (S q) by lia.
  destruct s as [|c1 s].
  { apply drop_cons_inv in Hd as [-> _]. reflexivity. }
  simpl in Hd. apply drop_cons_inv in Hd as [-> Hd]. cbn [ebind andb].
  destruct (isxdigit c1) eqn:H1; [|reflexivity].
  destruct (hex_char_facts _ H0) as (_ & _ & -> & _).
  destruct (hex_char_facts _ H1) as (_ & _ & -> & _).
  cbn [ebind]. rewrite store_some by done. reflexivity.
Qed.

(** One turn of the parsing loop, read off the characters at the cursor. *)
Lemma str_to_blob_loop_step n i zBuf p s rest aBlob :
  drop p zBuf = s ++ 0 :: rest -> nul_free s -> (i < length aBlob)%nat ->
  str_to_blob_loop (S n) i zBuf p aBlob
  = match skip_hyphen s with
    | c0 :: c1 :: t =>
        if isxdigit c0 && isxdigit c1 then
          str_to_blob_loop n (S i) zBuf (p + (length s - length t))
            (<[i := byte_of c0 c1]> aBlob)
        else Done (Return1, aBlob)
    | _ => Done (Return1, aBlob)
    end.
Proof.
  intros Hd Hs Hi. cbn [str_to_blob_loop].
  destruct s as [|c t].
  { pose proof Hd as Hd'. apply drop_cons_inv in Hd' as [-> _].
    cbn [ebind]. change (0 =? 45) with false. cbv iota.
    etrans; [apply (digits_step _ i zBuf p [] rest); done|]. reflexivity. }
  pose proof Hd as Hd'. simpl in Hd'. apply drop_cons_inv in Hd' as [-> Hd'].
  cbn [ebind skip_hyphen]. apply nul_free_cons in Hs as [Hc Ht].
  destruct (c =? 45) eqn:E.
  - etrans; [apply (digits_step _ i zBuf (S p) t rest); done|].
    destruct t as [|c0 [|c1 t]]; try reflexivity.
    destruct (isxdigit c0 && isxdigit c1); [|reflexivity].
    f_equal. simpl. lia.
  - etrans; [apply (digits_step _ i zBuf p (c :: t) rest); try done|].
    { by apply nul_free_cons. }
    destruct t as [|c1 t]; try reflexivity.
    destruct (isxdigit c && isxdigit c1); [|reflexivity].
    f_equal. simpl. lia.
Qed.

Lemma drop_advance (zBuf : list Z) p u t rest :
  drop p zBuf = (u ++ t) ++ 0 :: rest ->
  drop (p + (length (u ++ t) - length t)) zBuf = t ++ 0 :: rest.
Proof.
  intros Hd. rewrite <- drop_drop, Hd, length_app.
  replace (length u + length t - length t)%nat with (length u) by lia.
  by rewrite <- app_assoc, drop_app_length.
Qed.

Lemma take_S_insert (l : list Z) i v :
  (i < length l)%nat -> take (S i) (<[i := v]> l) = take i l ++ [v].
Proof.
  intros Hi. rewrite (take_S_r _ _ v) by (by apply list_lookup_insert_eq).
  by rewrite take_insert_ge.
Qed.

Lemma overwrite_nil i (buf : list Z) : overwrite i [] buf = buf.
Proof. unfold overwrite. simpl. by rewrite Nat.add_0_r, take_drop. Qed.

Lemma overwrite_insert i v bs (buf : list Z) :
  (i < length buf)%nat ->
  overwrite (S i) bs (<[i := v]> buf) = overwrite i (v :: bs) buf.
Proof.
  intros Hi. unfold overwrite.
  rewrite take_S_insert by lia. rewrite drop_insert_lt by lia.
  replace (S i + length bs)%nat with (i + length (v :: bs))%nat by (simpl; lia).
  by rewrite <- app_assoc.
Qed.

Lemma scan_written_length n : forall s, (length (scan_written n s) <= n)%nat.
Proof.
  induction n as [|n IH]; intros s; simpl; [lia|].
  destruct (skip_hyphen s) as [|c0 [|c1 t]]; simpl; try lia.
  destruct (isxdigit c0 && isxdigit c1); simpl; [|lia].
  specialize (IH t). lia.
Qed.

Lemma scan_written_some n : forall s bs r,
  scan n s = Some (bs, r) -> scan_written n s = bs.
Proof.
  induction n as [|n IH]; intros s bs r H; simpl in *; [congruence|].
  destruct (skip_hyphen s) as [|c0 [|c1 t]]; try discriminate.
  destruct (isxdigit c0 && isxdigit c1); try discriminate.
  destruct (scan n t) as [[bs' r']|] eqn:Hs; try discriminate.
  inversion H; subst. f_equal. by eapply IH.
Qed.

(** The parsing loop on a terminated string computes [scan]: it never
    leaves the buffer, and what it has stored from [aBlob[i]] on when it
    ends is [scan_written]. *)
Lemma str_to_blob_loop_scan n : forall i zBuf p s rest aBlob,
  drop p zBuf = s ++ 0 :: rest -> nul_free s -> (i + n <= length aBlob)%nat ->
  str_to_blob_loop n i zBuf p aBlob
  = Done (scan_exit p s (scan n s), overwrite i (scan_written n s) aBlob).
Proof.
  induction n as [|n IH]; intros i zBuf p s rest aBlob Hd Hs Hi.
  - simpl. by rewrite Nat.sub_diag, Nat.add_0_r, overwrite_nil.
  - rewrite (str_to_blob_loop_step n i zBuf p s rest) by (done || lia).
    cbn [scan scan_written]. destruct (skip_hyphen_suffix s) as [u Hu].
    destruct (skip_hyphen s) as [|c0 [|c1 t]] eqn:Hsk;
      [by rewrite overwrite_nil..|].
    destruct (isxdigit c0 && isxdigit c1); [|by rewrite overwrite_nil].
    assert (Hs' : s = (u ++ [c0; c1]) ++ t) by (by rewrite <- app_assoc).
    assert (Ht : nul_free t).
    { rewrite Hs' in Hs. by apply nul_free_app in Hs as [_ ?]. }
    assert (Hd' : drop (p + (length s - length t)) zBuf = t ++ 0 :: rest).
    { rewrite Hs' at 1. apply drop_advance. by rewrite <- Hs'. }
    rewrite (IH (S i) zBuf _ t rest) by (done || rewrite length_insert; lia).
    rewrite overwrite_insert by lia. f_equal. f_equal.
    destruct (scan n t) as [[bs r]|] eqn:Hscan; [|done].
    destruct (scan_suffix _ _ _ _ Hscan) as [_ [v Hv]].
    simpl. f_equal. rewrite Hs', Hv, !length_app. lia.
Qed.

Lemma skip_step (ch : Z) (zBuf : list Z) p s rest :
  ch <> 0 -> drop p zBuf = s ++ 0 :: rest -> nul_free s ->
  exists c, load zBuf p = Done c
    /\ drop (if c =? ch then S p else p) zBuf = skip_char ch s ++ 0 :: rest
    /\ nul_free (skip_char ch s).
Proof.
  intros Hch Hd Hs. destruct s as [|c t].
  - exists 0. pose proof Hd as Hd'. apply drop_cons_inv in Hd' as [-> _].
    split; [done|]. replace (0 =? ch) with false by lia. done.
  - exists c. pose proof Hd as Hd'. simpl in Hd'.
    apply drop_cons_inv in Hd' as [-> Hd']. split; [done|].
    apply nul_free_cons in Hs as [Hc Ht]. simpl.
    destruct (c =? ch); [done|]. split; [done|]. by apply nul_free_cons.
Qed.

Lemma load_end (zBuf : list Z) p s rest :
  drop p zBuf = s ++ 0 :: rest -> nul_free s ->
  exists c, load zBuf p = Done c
    /\ (c =? 0) = match s with [] => true | _ :: _ => false end.
Proof.
  intros Hd Hs. destruct s as [|c t]; simpl in Hd.
  - exists 0. by apply drop_cons_inv in Hd as [-> _].
  - exists c. apply drop_cons_inv in Hd as [-> _].
    apply nul_free_cons in Hs as [Hc _]. split; [done|]. lia.
Qed.

(** The parser on a terminated string computes [parse]: it never leaves
    the string and what follows the terminator plays no role. *)
Lemma str_to_blob_run s rest aBlob :
  nul_free s -> length aBlob = 16%nat ->
  sqlite3_uuid_str_to_blob (s ++ 0 :: rest) 0 aBlob
  = Done (match parse s with Some _ => 0 | None => 1 end, written s aBlob).
Proof.
  intros Hs Hlen. unfold sqlite3_uuid_str_to_blob, parse, written.
  set (zBuf := s ++ 0 :: rest).
  destruct (skip_step 123 zBuf 0 s rest) as (c & -> & Hd1 & Hs1); [done..|].
  cbn [ebind]. set (p1 := if c =? 123 then 1%nat else 0%nat) in *.
  rewrite (str_to_blob_loop_scan 16 0 zBuf p1 _ rest aBlob Hd1 Hs1) by lia.
  cbn [ebind].
  destruct (scan 16 (skip_char 123 s)) as [[bs r]|] eqn:Hscan; [|done].
  cbn [scan_exit].
  destruct (scan_suffix _ _ _ _ Hscan) as [Hbs [u Hu]].
  assert (Hr : nul_free r).
  { rewrite Hu in Hs1. by apply nul_free_app in Hs1 as [_ ?]. }
  assert (Hd2 : drop (p1 + (length (skip_char 123 s) - length r)) zBuf
                = r ++ 0 :: rest).
  { rewrite Hu at 1. apply drop_advance. by rewrite <- Hu. }
  destruct (skip_step 125 zBuf _ r rest ltac:(done) Hd2 Hr)
    as (c2 & -> & Hd3 & Hs3).
  cbn [ebind].
  destruct (load_end zBuf _ _ rest Hd3 Hs3) as (c3 & -> & Hc3).
  cbn [ebind]. rewrite Hc3.
  by destruct (skip_char 125 r).
Qed.

(** On success the output buffer holds the parsed bytes and nothing of
    what it held before. *)
Lemma parse_written s bs aBlob :
  parse s = Some bs -> length aBlob = 16%nat -> written s aBlob = bs.
Proof.
  unfold parse, written, overwrite. intros H Hlen.
  destruct (scan 16 (skip_char 123 s)) as [[bs' r]|] eqn:Hscan; [|done].
  destruct (scan_suffix _ _ _ _ Hscan) as [Hbs _].
  rewrite (scan_written_some _ _ _ _ Hscan).
  rewrite drop_ge by lia. rewrite app_nil_r. simpl.
  destruct (skip_char 125 r); congruence.
Qed.

Lemma written_length s aBlob :
  length aBlob = 16%nat -> length (written s aBlob) = 16%nat.
Proof.
  intros Hlen. unfold written, overwrite.
  pose proof (scan_written_length 16 (skip_char 123 s)).
  rewrite !length_app, length_take, length_drop. lia.
Qed.

Lemma str_to_blob_parse s rest aBlob :
  nul_free s -> length aBlob = 16%nat ->
  match parse s with
  | Some bs =>
      sqlite3_uuid_str_to_blob (s ++ 0 :: rest) 0 aBlob = Done (0, bs)
  | None =>
      exists aBlob',
        sqlite3_uuid_str_to_blob (s ++ 0 :: rest) 0 aBlob = Done (1, aBlob')
        /\ length aBlob' = 16%nat
  end.
Proof.
  intros Hs Hlen. rewrite str_to_blob_run by done.
  destruct (parse s) as [bs|] eqn:Hp.
  - by rewrite (parse_written s bs).
  - eexists. split; [done|]. by apply written_length.
Qed.

Lemma parse_accepts s bs : nul_free s -> parse s = Some bs -> accepts s bs.
Proof.
  intros Hs Hp aBlob Hlen.
  pose proof (str_to_blob_parse s [] aBlob Hs Hlen) as H.
  by rewrite Hp in H.
Qed.

Lemma parse_rejects s : nul_free s -> parse s = None -> rejects s.
Proof.
  intros Hs Hp aBlob Hlen.
  pose proof (str_to_blob_parse s [] aBlob Hs Hlen) as H.
  rewrite Hp in H. destruct H as (aBlob' & H & _). by exists aBlob'.
Qed.

Lemma accepts_parse s bs : nul_free s -> accepts s bs -> parse s = Some bs.
Proof.
  intros Hs Ha. specialize (Ha (replicate 16 0) eq_refl).
  pose proof (str_to_blob_parse s [] (replicate 16 0) Hs eq_refl) as H.
  unfold c_str in Ha. destruct (parse s) as [bs'|].
  - rewrite Ha in H. by inversion H.
  - destruct H as (aBlob' & H & _). rewrite Ha in H. by inversion H.
Qed.

Lemma rejects_parse s : nul_free s -> rejects s -> parse s = None.
Proof.
  intros Hs Hr. destruct (Hr (replicate 16 0) eq_refl) as [aBlob' Ha].
  pose proof (str_to_blob_parse s [] (replicate 16 0) Hs eq_refl) as H.
  unfold c_str in Ha. destruct (parse s) as [bs'|]; [|done].
  rewrite Ha in H. by inversion H.
Qed.

(** ** The shape of the accepted strings *)

Lemma skip_hyphen_grp g r :
  grp_ok g = true ->
  skip_hyphen (grp_chars g ++ r) = g_hi g :: g_lo g :: r.
Proof.
  destruct g as [hy hi lo]. unfold grp_ok, grp_chars. simpl. intros Hok.
  apply andb_true_iff in Hok as [Hhi _].
  destruct (hex_char_facts _ Hhi) as (_ & _ & _ & _ & H45 & _).
  destruct hy; simpl; [done|]. by replace (hi =? 45) with false by lia.
Qed.

Lemma scan_groups gs : forall r,
  forallb grp_ok gs = true ->
  scan (length gs) (groups_chars gs ++ r) = Some (map grp_byte gs, r).
Proof.
  induction gs as [|g gs IH]; intros r Hok; [done|].
  simpl in Hok. apply andb_true_iff in Hok as [Hg Hgs].
  cbn [length scan groups_chars flat_map]. rewrite <- app_assoc.
  rewrite skip_hyphen_grp by done. unfold grp_ok in Hg. rewrite Hg.
  fold (groups_chars gs). by rewrite IH.
Qed.

Lemma scan_inv n : forall s bs r,
  scan n s = Some (bs, r) ->
  exists gs, length gs = n /\ forallb grp_ok gs = true
    /\ s = groups_chars gs ++ r /\ bs = map grp_byte gs.
Proof.
  induction n as [|n IH]; intros s bs r H; simpl in H.
  - inversion H; subst. by exists [].
  - assert (Hhy : exists hy, s = opt_char hy 45 ++ skip_hyphen s).
    { destruct s as [|c t]; [by exists false|]. simpl.
      destruct (c =? 45) eqn:E; [|by exists false].
      exists true. simpl. f_equal. lia. }
    destruct Hhy as [hy Hhy].
    destruct (skip_hyphen s) as [|c0 [|c1 t]]; try discriminate.
    destruct (isxdigit c0 && isxdigit c1) eqn:Hok; try discriminate.
    destruct (scan n t) as [[bs' r']|] eqn:Hs; try discriminate.
    inversion H; subst bs r. destruct (IH _ _ _ Hs) as (gs & Hl & Hgs & Ht & Hb).
    exists (Grp hy c0 c1 :: gs). split; [simpl; lia|].
    split; [simpl; unfold grp_ok; simpl; by rewrite Hok|].
    split; [|simpl; by rewrite Hb].
    rewrite Hhy, Ht. cbn [groups_chars flat_map grp_chars g_hyphen g_hi g_lo].
    unfold grp_chars, groups_chars. simpl. by rewrite <- !app_assoc.
Qed.

Lemma groups_chars_nul_free gs :
  forallb grp_ok gs = true -> nul_free (groups_chars gs).
Proof.
  induction gs as [|g gs IH]; intros Hok; [constructor|].
  simpl in Hok. apply andb_true_iff in Hok as [Hg Hgs].
  apply andb_true_iff in Hg as [Hhi Hlo].
  destruct (hex_char_facts _ Hhi) as (_ & _ & _ & Hh0 & _).
  destruct (hex_char_facts _ Hlo) as (_ & _ & _ & Hl0 & _).
  cbn [groups_chars flat_map]. apply nul_free_app. split; [|by apply IH].
  unfold grp_chars. destruct (g_hyphen g); repeat constructor; done.
Qed.

Lemma opt_char_nul_free b ch : ch <> 0 -> nul_free (opt_char b ch).
Proof. intros Hch. destruct b; repeat constructor; done. Qed.

Lemma loose_nul_free ob gs cb :
  forallb grp_ok gs = true -> nul_free (loose ob gs cb).
Proof.
  intros Hok. unfold loose. rewrite !nul_free_app.
  split; [by apply opt_char_nul_free|].
  split; [by apply groups_chars_nul_free | by apply opt_char_nul_free].
Qed.

(** What a group list starts with is never a brace. *)
Lemma groups_chars_head gs r :
  forallb grp_ok gs = true -> gs <> [] ->
  exists c t, groups_chars gs ++ r = c :: t /\ c <> 123.
Proof.
  intros Hok Hne. destruct gs as [|g gs]; [done|].
  simpl in Hok. apply andb_true_iff in Hok as [Hg _].
  apply andb_true_iff in Hg as [Hhi _].
  destruct (hex_char_facts _ Hhi) as (_ & _ & _ & _ & _ & H123 & _).
  unfold groups_chars, grp_chars. cbn [flat_map].
  destruct (g_hyphen g); simpl; [exists 45 | exists (g_hi g)];
    eexists; (split; [reflexivity | lia]).
Qed.

Lemma skip_open_loose ob gs r :
  forallb grp_ok gs = true -> gs <> [] ->
  skip_char 123 (opt_char ob 123 ++ groups_chars gs ++ r) = groups_chars gs ++ r.
Proof.
  intros Hok Hne. destruct ob; [done|]. simpl.
  destruct (groups_chars_head gs r Hok Hne) as (c & t & -> & Hc).
  simpl. by replace (c =? 123) with false by lia.
Qed.

Lemma parse_loose ob gs cb :
  length gs = 16%nat -> forallb grp_ok gs = true ->
  parse (loose ob gs cb) = Some (map grp_byte gs).
Proof.
  intros Hlen Hok. unfold parse, loose.
  rewrite skip_open_loose by (done || by destruct gs).
  rewrite <- Hlen, scan_groups by done. by destruct cb.
Qed.

Lemma parse_inv s bs :
  parse s = Some bs ->
  exists ob gs cb, s = loose ob gs cb /\ length gs = 16%nat
    /\ forallb grp_ok gs = true /\ bs = map grp_byte gs.
Proof.
  unfold parse. intros H.
  assert (Hob : exists ob, s = opt_char ob 123 ++ skip_char 123 s).
  { destruct s as [|c t]; [by exists false|]. simpl.
    destruct (c =? 123) eqn:E; [|by exists false].
    exists true. simpl. f_equal. lia. }
  destruct Hob as [ob Hob].
  destruct (scan 16 (skip_char 123 s)) as [[bs' r]|] eqn:Hscan; [|done].
  destruct (scan_inv _ _ _ _ Hscan) as (gs & Hl & Hok & Hs & Hb).
  assert (Hcb : exists cb, r = opt_char cb 125 /\ bs = bs').
  { destruct r as [|c t]; simpl in H;
      [exists false; split; [done | congruence]|].
    destruct (c =? 125) eqn:E; [|done].
    destruct t; [|done]. exists true. split; [simpl; f_equal; lia | congruence]. }
  destruct Hcb as (cb & -> & ->).
  exists ob, gs, cb. unfold loose. by rewrite <- Hs.
Qed.

(** ** The canonical text is an accepted string *)

Lemma byte_grp_ok hy x : 0 <= x < 256 -> grp_ok (byte_grp hy x) = true.
Proof.
  intros Hx. destruct (byte_nibbles x Hx) as (_ & _ & Hhi & Hlo).
  destruct (nibble_facts _ Hhi) as (_ & H1 & _).
  destruct (nibble_facts _ Hlo) as (_ & H2 & _).
  unfold grp_ok, byte_grp. simpl. by rewrite H1, H2.
Qed.

Lemma byte_grp_byte hy x : 0 <= x < 256 -> grp_byte (byte_grp hy x) = x.
Proof. intros Hx. by apply byte_of_pair. Qed.

Lemma byte_grps_ok flags : forall b,
  bytes b -> forallb grp_ok (zip_with byte_grp flags b) = true.
Proof.
  induction flags as [|hy flags IH]; intros [|x b] Hb; simpl; try done.
  apply Forall_cons in Hb as [Hx Hb].
  by rewrite byte_grp_ok, IH.
Qed.

Lemma byte_grps_bytes flags : forall b,
  bytes b -> length flags = length b ->
  map grp_byte (zip_with byte_grp flags b) = b.
Proof.
  induction flags as [|hy flags IH]; intros [|x b] Hb Hl; simpl in *; try done.
  apply Forall_cons in Hb as [Hx Hb].
  rewrite byte_grp_byte by done. f_equal. apply IH; [done | lia].
Qed.

Lemma spec_format_loose b :
  length b = 16%nat -> spec_format b = loose false (canon_groups b) false.
Proof.
  intros Hb.
  do 16 (destruct b as [|? b]; [discriminate Hb|]).
  destruct b; [reflexivity | discriminate Hb].
Qed.

Lemma parse_spec_format b :
  length b = 16%nat -> bytes b -> parse (spec_format b) = Some b.
Proof.
  intros Hlen Hb. rewrite spec_format_loose by done.
  rewrite parse_loose.
  - f_equal. by apply byte_grps_bytes.
  - unfold canon_groups. rewrite length_zip_with. rewrite Hlen. reflexivity.
  - by apply byte_grps_ok.
Qed.

Lemma spec_format_nul_free b :
  length b = 16%nat -> bytes b -> nul_free (spec_format b).
Proof.
  intros Hlen Hb. rewrite spec_format_loose by done.
  apply loose_nul_free. by apply byte_grps_ok.
Qed.

(** ** The canonical pattern *)

Lemma lower_hi x : 0 <= x < 256 -> is_lower_hex (spec_digit (x / 16)) = true.
Proof.
  intros Hx. destruct (byte_nibbles x Hx) as (_ & _ & Hhi & _).
  by destruct (nibble_facts _ Hhi) as (_ & _ & ? & _).
Qed.

Lemma lower_lo x : 0 <= x < 256 -> is_lower_hex (spec_digit (x mod 16)) = true.
Proof.
  intros Hx. destruct (byte_nibbles x Hx) as (_ & _ & _ & Hlo).
  by destruct (nibble_facts _ Hlo) as (_ & _ & ? & _).
Qed.

Ltac split_bytes H :=
  unfold bytes in H;
  repeat (let Hx := fresh "Hx" in apply Forall_cons in H as [Hx H]).

Lemma spec_format_pattern b :
  length b = 16%nat -> bytes b -> canonical_pattern (spec_format b) = true.
Proof.
  intros Hlen Hb.
  do 16 (destruct b as [|? b]; [discriminate Hlen|]).
  destruct b; [|discriminate Hlen].
  split_bytes Hb.
  unfold canonical_pattern, spec_format, spec_hex, spec_hexpair.
  cbn [length take drop flat_map app pattern_from hyphen_at Nat.eqb orb andb].
  rewrite !lower_hi, !lower_lo by assumption. reflexivity.
Qed.

(** ** The version and variant stamps *)

Lemma stamp_version x :
  0 <= x < 256 ->
  to_uchar (Z.land x 15 + 64) = Z.lor (Z.land x 15) 64
  /\ 0 <= Z.lor (Z.land x 15) 64 < 256
  /\ Z.lor (Z.land x 15) 64 / 16 = 4.
Proof.
  intros Hx.
  pose (P := fun x => let y := Z.lor (Z.land x 15) 64 in
     (to_uchar (Z.land x 15 + 64) =? y) && (0 <=? y) && (y <? 256)
     && (y / 16 =? 4)).
  assert (HP : P x = true) by (apply (range_check P 0 256); [reflexivity | lia]).
  unfold P in HP. cbv zeta in HP. rewrite !andb_true_iff in HP. lia.
Qed.

Lemma stamp_variant x :
  0 <= x < 256 ->
  to_uchar (Z.land x 63 + 128) = Z.lor (Z.land x 63) 128
  /\ 0 <= Z.lor (Z.land x 63) 128 < 256
  /\ 8 <= Z.lor (Z.land x 63) 128 / 16 < 12.
Proof.
  intros Hx.
  pose (P := fun x => let y := Z.lor (Z.land x 63) 128 in
     (to_uchar (Z.land x 63 + 128) =? y) && (0 <=? y) && (y <? 256)
     && (8 <=? y / 16) && (y / 16 <? 12)).
  assert (HP : P x = true) by (apply (range_check P 0 256); [reflexivity | lia]).
  unfold P in HP. cbv zeta in HP. rewrite !andb_true_iff in HP. lia.
Qed.

Lemma uninit_length junk n : length (uninit junk n) = n.
Proof. unfold uninit. by rewrite length_map, length_seq. Qed.

Lemma take_text (u : list Z) rest :
  length u = 36%nat -> take 36 (u ++ 0 :: rest) = u.
Proof. intros Hu. by apply take_app_length'. Qed.

(** ** The SQL functions on a text argument *)

Lemma byte_of_range c0 c1 : 0 <= byte_of c0 c1 < 256.
Proof. unfold byte_of, to_uchar. apply Z.mod_pos_bound. lia. Qed.

Lemma parse_bytes s bs : parse s = Some bs -> length bs = 16%nat /\ bytes bs.
Proof.
  intros H. destruct (parse_inv _ _ H) as (ob & gs & cb & _ & Hl & _ & ->).
  split; [by rewrite length_map|].
  unfold bytes. apply Forall_map, Forall_forall. intros g _.
  apply byte_of_range.
Qed.

Lemma c_text_spec z :
  nul_free (c_text z) /\ exists rest, c_str z = c_text z ++ 0 :: rest.
Proof.
  unfold c_str. induction z as [|c z [IH1 [rest IH2]]]; simpl.
  - split; [constructor | by exists []].
  - destruct (c =? 0) eqn:E.
    + split; [constructor|]. exists (z ++ [0]). simpl. f_equal. lia.
    + split; [apply nul_free_cons; split; [lia | done]|].
      exists rest. simpl. by rewrite IH2.
Qed.

Lemma c_text_id s : nul_free s -> c_text s = s.
Proof.
  induction 1 as [|c s Hc _ IH]; simpl; [done|].
  replace (c =? 0) with false by lia. by rewrite IH.
Qed.

Lemma str_to_blob_text z aBlob :
  length aBlob = 16%nat ->
  sqlite3_uuid_str_to_blob (c_str z) 0 aBlob
  = Done (match parse (c_text z) with Some _ => 0 | None => 1 end,
          written (c_text z) aBlob).
Proof.
  intros Hlen. destruct (c_text_spec z) as [Hs [rest ->]].
  by apply str_to_blob_run.
Qed.

Lemma input_to_blob_text z pBuf :
  length pBuf = 16%nat ->
  sqlite3_uuid_input_to_blob (SQLITE_TEXT z) pBuf
  = Done (written (c_text z) pBuf, parse (c_text z)).
Proof.
  intros Hl. unfold sqlite3_uuid_input_to_blob.
  rewrite str_to_blob_text by done. cbn [ebind].
  destruct (parse (c_text z)) as [bs|] eqn:Hp; [|done].
  by rewrite (parse_written _ bs).
Qed.

Lemma uuid_blob_text z junk :
  sqlite3_uuid_blob (SQLITE_TEXT z) junk
  = Done (match parse (c_text z) with
          | Some bs => ResultBlob bs
          | None => NoResult
          end).
Proof.
  unfold sqlite3_uuid_blob.
  rewrite input_to_blob_text by apply uninit_length. cbn [ebind].
  destruct (parse (c_text z)) as [bs|] eqn:Hp; [|done].
  destruct (parse_bytes _ _ Hp) as [Hl _].
  by rewrite take_ge by lia.
Qed.

Lemma uuid_str_text z junk :
  sqlite3_uuid_str (SQLITE_TEXT z) junk
  = Done (match parse (c_text z) with
          | Some bs => ResultText (spec_format bs)
          | None => NoResult
          end).
Proof.
  unfold sqlite3_uuid_str.
  rewrite input_to_blob_text by apply uninit_length. cbn [ebind].
  destruct (parse (c_text z)) as [bs|] eqn:Hp; [|done].
  destruct (parse_bytes _ _ Hp) as [Hl Hb].
  rewrite blob_to_str_spec by (done || by rewrite uninit_length).
  cbn [ebind]. by rewrite take_text by (by apply spec_format_length).
Qed.

(** ** Complete groups followed by something else *)

Lemma scan_groups_app gs : forall m t,
  forallb grp_ok gs = true ->
  scan (length gs + m) (groups_chars gs ++ t)
  = match scan m t with
    | Some (bs, r) => Some (map grp_byte gs ++ bs, r)
    | None => None
    end.
Proof.
  induction gs as [|g gs IH]; intros m t Hok.
  - simpl. by destruct (scan m t) as [[bs r]|].
  - simpl in Hok. apply andb_true_iff in Hok as [Hg Hgs].
    cbn [length Nat.add scan groups_chars flat_map]. rewrite <- app_assoc.
    rewrite skip_hyphen_grp by done. unfold grp_ok in Hg. rewrite Hg.
    fold (groups_chars gs). rewrite IH by done.
    by destruct (scan m t) as [[bs r]|].
Qed.

Lemma scan_no_pair m t : hex_pair_at (skip_hyphen t) = false -> scan (S m) t = None.
Proof.
  intros H. simpl. destruct (skip_hyphen t) as [|c0 [|c1 t']]; try done.
  simpl in H. by rewrite H.
Qed.

Lemma hex_count_app s t : hex_count (s ++ t) = (hex_count s + hex_count t)%nat.
Proof. unfold hex_count. by rewrite List.filter_app, length_app. Qed.

Lemma hex_count_groups gs :
  forallb grp_ok gs = true -> hex_count (groups_chars gs) = (2 * length gs)%nat.
Proof.
  induction gs as [|g gs IH]; intros Hok; [done|].
  simpl in Hok. apply andb_true_iff in Hok as [Hg Hgs].
  apply andb_true_iff in Hg as [Hhi Hlo].
  assert (Hg : hex_count (grp_chars g) = 2%nat).
  { unfold grp_chars, hex_count.
    destruct (g_hyphen g); cbn [opt_char app List.filter];
      change (isxdigit 45) with false; cbv iota; by rewrite Hhi, Hlo. }
  cbn [groups_chars flat_map length]. rewrite hex_count_app.
  fold (groups_chars gs). rewrite IH, Hg by done. lia.
Qed.

Lemma hex_count_loose ob gs cb :
  forallb grp_ok gs = true -> hex_count (loose ob gs cb) = (2 * length gs)%nat.
Proof.
  intros Hok. unfold loose. rewrite !hex_count_app, hex_count_groups by done.
  assert (Ho : hex_count (opt_char ob 123) = 0%nat) by (by destruct ob).
  assert (Hc : hex_count (opt_char cb 125) = 0%nat) by (by destruct cb).
  rewrite Ho, Hc. lia.
Qed.

Lemma parse_hex_count s bs : parse s = Some bs -> hex_count s = 32%nat.
Proof.
  intros H. destruct (parse_inv _ _ H) as (ob & gs & cb & -> & Hl & Hok & _).
  rewrite hex_count_loose by done. lia.
Qed.

(** ** What the parser rejects and accepts *)

Lemma accepts_loose ob gs cb :
  length gs = 16%nat -> forallb grp_ok gs = true ->
  accepts (loose ob gs cb) (map grp_byte gs).
Proof.
  intros Hlen Hok.
  apply parse_accepts; [by apply loose_nul_free | by apply parse_loose].
Qed.

Lemma rejects_wrong_count s : nul_free s -> hex_count s <> 32%nat -> rejects s.
Proof.
  intros Hs Hne. apply parse_rejects; [done|].
  destruct (parse s) as [bs|] eqn:Hp; [|done].
  by apply parse_hex_count in Hp.
Qed.

Lemma rejects_no_pair s gs t :
  nul_free s ->
  skip_char 123 s = groups_chars gs ++ t ->
  (length gs < 16)%nat -> forallb grp_ok gs = true ->
  hex_pair_at (skip_hyphen t) = false -> rejects s.
Proof.
  intros Hs Hsk Hlen Hok Hpair. apply parse_rejects; [done|].
  unfold parse. rewrite Hsk.
  replace 16%nat with (length gs + S (15 - length gs))%nat by lia.
  rewrite scan_groups_app by done. by rewrite scan_no_pair.
Qed.

Lemma parse_after_groups s gs t :
  skip_char 123 s = groups_chars gs ++ t ->
  length gs = 16%nat -> forallb grp_ok gs = true ->
  parse s = match skip_char 125 t with
            | [] => Some (map grp_byte gs)
            | _ :: _ => None
            end.
Proof.
  intros Hsk Hlen Hok. unfold parse. rewrite Hsk, <- Hlen. by rewrite scan_groups.
Qed.

(** ** Canonical text from the digits of the input *)

Lemma spec_format_hyphenate b :
  length b = 16%nat -> spec_format b = hyphenate (spec_hex b).
Proof.
  intros Hb.
  do 16 (destruct b as [|? b]; [discriminate Hb|]).
  destruct b; [reflexivity | discriminate Hb].
Qed.

Lemma uuid_digits_app s t : uuid_digits (s ++ t) = uuid_digits s ++ uuid_digits t.
Proof. unfold uuid_digits. by rewrite List.filter_app, map_app. Qed.

Lemma grp_byte_value g :
  grp_ok g = true -> grp_byte g = hex_val (g_hi g) * 16 + hex_val (g_lo g).
Proof.
  intros Hok. apply andb_true_iff in Hok as [Hhi Hlo].
  destruct (hex_char_facts _ Hhi) as (Rhi & _).
  destruct (hex_char_facts _ Hlo) as (Rlo & _).
  unfold grp_byte, byte_of, to_uchar.
  rewrite Z.shiftl_mul_pow2 by lia. change (2 ^ 4) with 16.
  apply Z.mod_small. lia.
Qed.

Lemma spec_hexpair_grp g :
  grp_ok g = true ->
  spec_hexpair (grp_byte g) = uuid_digits (grp_chars g).
Proof.
  intros Hok. rewrite grp_byte_value by done.
  apply andb_true_iff in Hok as [Hhi Hlo].
  destruct (hex_char_facts _ Hhi) as (Rhi & Dhi & _ & _ & H1 & H2 & H3).
  destruct (hex_char_facts _ Hlo) as (Rlo & Dlo & _ & _ & L1 & L2 & L3).
  assert (Hp : forall c, c <> 45 -> c <> 123 -> c <> 125 -> is_punct c = false).
  { intros c ? ? ?. unfold is_punct. lia. }
  unfold spec_hexpair, grp_chars, uuid_digits.
  replace ((hex_val (g_hi g) * 16 + hex_val (g_lo g)) / 16)
    with (hex_val (g_hi g)) by (apply Z.div_unique with (hex_val (g_lo g)); lia).
  replace ((hex_val (g_hi g) * 16 + hex_val (g_lo g)) mod 16)
    with (hex_val (g_lo g)) by (apply Z.mod_unique with (hex_val (g_hi g)); lia).
  rewrite Dhi, Dlo, List.filter_app. cbn [List.filter].
  rewrite !Hp by done. cbn [negb].
  by destruct (g_hyphen g).
Qed.

Lemma spec_hex_groups gs :
  forallb grp_ok gs = true ->
  spec_hex (map grp_byte gs) = uuid_digits (groups_chars gs).
Proof.
  induction gs as [|g gs IH]; intros Hok; [done|].
  simpl in Hok. apply andb_true_iff in Hok as [Hg Hgs].
  cbn [map spec_hex flat_map groups_chars]. rewrite uuid_digits_app.
  fold (spec_hex (map grp_byte gs)) (groups_chars gs).
  by rewrite spec_hexpair_grp, IH.
Qed.

Lemma uuid_digits_loose ob gs cb :
  uuid_digits (loose ob gs cb) = uuid_digits (groups_chars gs).
Proof.
  unfold loose. rewrite !uuid_digits_app.
  assert (Ho : uuid_digits (opt_char ob 123) = []) by (by destruct ob).
  assert (Hc : uuid_digits (opt_char cb 125) = []) by (by destruct cb).
  by rewrite Ho, Hc, app_nil_r.
Qed.

(** The canonical text of the bytes parsed from an accepted string is made
    of the digits of that string. *)
Lemma parse_format_digits s bs :
  parse s = Some bs -> spec_format bs = hyphenate (uuid_digits s).
Proof.
  intros Hp. destruct (parse_bytes _ _ Hp) as [Hl _].
  destruct (parse_inv _ _ Hp) as (ob & gs & cb & -> & _ & Hok & ->).
  rewrite spec_format_hyphenate by done.
  by rewrite spec_hex_groups, uuid_digits_loose.
Qed.

(** ** The bytes stored before the loop ends *)

Lemma skip_hyphen_opt s : exists hy, s = opt_char hy 45 ++ skip_hyphen s.
Proof.
  destruct s as [|c t]; [by exists false|]. simpl.
  destruct (c =? 45) eqn:E; [|by exists false].
  exists true. simpl. f_equal. lia.
Qed.

(** Every string starts with a longest run of at most [n] valid byte
    groups. *)
Lemma scan_decompose n : forall s,
  exists gs t,
    s = groups_chars gs ++ t /\ forallb grp_ok gs = true
    /\ (length gs <= n)%nat
    /\ ((length gs < n)%nat -> hex_pair_at (skip_hyphen t) = false).
Proof.
  induction n as [|n IH]; intros s.
  { exists [], s. repeat split; simpl; lia. }
  destruct (hex_pair_at (skip_hyphen s)) eqn:Hp.
  - destruct (skip_hyphen_opt s) as [hy Hs].
    destruct (skip_hyphen s) as [|c0 [|c1 t']]; try discriminate.
    simpl in Hp. destruct (IH t') as (gs & t & Ht & Hok & Hl & Hmax).
    exists (Grp hy c0 c1 :: gs), t.
    split; [|split; [|split]].
    + rewrite Hs, Ht. unfold groups_chars, grp_chars. simpl.
      by rewrite <- !app_assoc.
    + simpl. unfold grp_ok. simpl. by rewrite Hp.
    + simpl. lia.
    + simpl. intros H. apply Hmax. lia.
  - exists [], s. repeat split; simpl; (done || lia).
Qed.

Lemma scan_written_groups gs : forall m t,
  forallb grp_ok gs = true ->
  scan_written (length gs + m) (groups_chars gs ++ t)
  = map grp_byte gs ++ scan_written m t.
Proof.
  induction gs as [|g gs IH]; intros m t Hok; [done|].
  simpl in Hok. apply andb_true_iff in Hok as [Hg Hgs].
  cbn [length Nat.add scan_written groups_chars flat_map]. rewrite <- app_assoc.
  rewrite skip_hyphen_grp by done. unfold grp_ok in Hg. rewrite Hg.
  fold (groups_chars gs). by rewrite IH.
Qed.

Lemma scan_written_no_pair m t :
  hex_pair_at (skip_hyphen t) = false -> scan_written (S m) t = [].
Proof.
  intros H. simpl. destruct (skip_hyphen t) as [|c0 [|c1 t']]; try done.
  simpl in H. by rewrite H.
Qed.

(** What the parser leaves in the output buffer, from the valid groups the
    string starts with. *)
Lemma written_groups s gs t aBlob :
  skip_char 123 s = groups_chars gs ++ t -> forallb grp_ok gs = true ->
  (length gs <= 16)%nat ->
  ((length gs < 16)%nat -> hex_pair_at (skip_hyphen t) = false) ->
  written s aBlob = map grp_byte gs ++ drop (length gs) aBlob.
Proof.
  intros Hsk Hok Hl Hmax. unfold written, overwrite. rewrite Hsk.
  assert (HW : scan_written 16 (groups_chars gs ++ t) = map grp_byte gs).
  { replace 16%nat with (length gs + (16 - length gs))%nat by lia.
    rewrite scan_written_groups by done.
    destruct (16 - length gs)%nat as [|m] eqn:E; [by rewrite app_nil_r|].
    rewrite scan_written_no_pair; [by rewrite app_nil_r|]. apply Hmax. lia. }
  rewrite HW, length_map. reflexivity.
Qed.

(** The return code, from the valid groups the string starts with. *)
Lemma parse_groups s gs t :
  skip_char 123 s = groups_chars gs ++ t -> forallb grp_ok gs = true ->
  (length gs <= 16)%nat ->
  ((length gs < 16)%nat -> hex_pair_at (skip_hyphen t) = false) ->
  parse s = if (length gs =? 16)%nat then
              match skip_char 125 t with
              | [] => Some (map grp_byte gs)
              | _ :: _ => None
              end
            else None.
Proof.
  intros Hsk Hok Hl Hmax. destruct (length gs =? 16)%nat eqn:E.
  - apply Nat.eqb_eq in E. by apply parse_after_groups.
  - apply Nat.eqb_neq in E. unfold parse. rewrite Hsk.
    replace 16%nat with (length gs + S (15 - length gs))%nat by lia.
    rewrite scan_groups_app by done. rewrite scan_no_pair; [done|].
    apply Hmax. lia.
Qed.

(** * The properties *)

(** C1.  Formatting any 16-byte blob and parsing the string the formatter
    left in its buffer returns 0 and leaves exactly these 16 bytes in the
    output buffer. *)
Theorem parse_format_roundtrip (b zBuf aBlob : list Z) :
  length b = 16%nat -> bytes b ->
  (37 <= length zBuf)%nat -> length aBlob = 16%nat ->
  exists zStr,
    sqlite3_uuid_blob_to_str b zBuf = Done zStr
    /\ sqlite3_uuid_str_to_blob zStr 0 aBlob = Done (0, b).
Proof.
  intros Hlen Hb Hz Ha. eexists. split; [by apply blob_to_str_spec|].
  pose proof (str_to_blob_parse (spec_format b) (drop 37 zBuf) aBlob
                (spec_format_nul_free b Hlen Hb) Ha) as H.
  by rewrite parse_spec_format in H.
Qed.

Lemma parse_format_roundtrip_witness :
  (length canon_blob = 16%nat /\ bytes canon_blob
   /\ (37 <= length (replicate 37 255))%nat
   /\ length (replicate 16 255) = 16%nat)
  /\ exists zStr,
    sqlite3_uuid_blob_to_str canon_blob (replicate 37 255) = Done zStr
    /\ sqlite3_uuid_str_to_blob zStr 0 (replicate 16 255) = Done (0, canon_blob).
Proof.
  assert (Hb : bytes canon_blob) by (repeat constructor; lia).
  assert (Hz : (37 <= length (replicate 37 255))%nat) by (simpl; lia).
  split; [by repeat split|].
  by apply (parse_format_roundtrip canon_blob (replicate 37 255)
              (replicate 16 255)).
Defined.

(** C2.  Whatever 16 bytes the random source delivers, [uuid4()] returns a
    text of the canonical pattern whose character 14 (the first hex digit
    of byte 6) is [4] and whose character 19 (the first hex digit of
    byte 8) is one of [8], [9], [a], [b]; the text is the canonical text
    of the random bytes with byte 6 replaced by [(b6 & 0x0F) | 0x40] and
    byte 8 by [(b8 & 0x3F) | 0x80]. *)
Theorem generate_valid (rnd : list Z) (junk : nat -> Z) :
  length rnd = 16%nat -> bytes rnd ->
  exists u b6 b8,
    rnd !! 6%nat = Some b6 /\ rnd !! 8%nat = Some b8
    /\ sqlite3_uuid rnd junk = Done (ResultText u)
    /\ canonical_pattern u = true
    /\ u !! 14%nat = Some 52
    /\ (exists c, u !! 19%nat = Some c /\ (c = 56 \/ c = 57 \/ c = 97 \/ c = 98))
    /\ u = spec_format (<[8%nat := Z.lor (Z.land b8 63) 128]>
                          (<[6%nat := Z.lor (Z.land b6 15) 64]> rnd)).
Proof.
  intros Hlen Hb.
  destruct rnd as [|z0 [|z1 [|z2 [|z3 [|z4 [|z5 [|b6 [|z7 [|b8 [|z9 [|z10
    [|z11 [|z12 [|z13 [|z14 [|z15 [|]]]]]]]]]]]]]]]]]; try discriminate Hlen.
  pose proof Hb as Hb'. split_bytes Hb'.
  assert (H6 : 0 <= b6 < 256) by assumption.
  assert (H8 : 0 <= b8 < 256) by assumption.
  destruct (stamp_version b6 H6) as (E6 & R6 & V6).
  destruct (stamp_variant b8 H8) as (E8 & R8 & V8).
  eexists _, b6, b8. split; [reflexivity|]. split; [reflexivity|].
  set (b' := <[8%nat := _]> _).
  assert (Hb2 : bytes b').
  { subst b'. cbn. unfold bytes. repeat constructor; lia. }
  assert (Hrun : sqlite3_uuid
            [z0; z1; z2; z3; z4; z5; b6; z7; b8; z9; z10; z11; z12; z13; z14; z15]
            junk = Done (ResultText (spec_format b'))).
  { unfold sqlite3_uuid.
    rewrite (load_some _ 6 b6) by reflexivity. cbn [ebind].
    rewrite store_some by (simpl; lia). cbn [ebind].
    rewrite (load_some _ 8 b8) by reflexivity. cbn [ebind].
    rewrite store_some by (simpl; lia). cbn [ebind].
    rewrite E6, E8. fold b'. rewrite (blob_to_str_spec b') by (done || by rewrite uninit_length).
    cbn [ebind]. by rewrite take_text by (by apply spec_format_length). }
  split; [exact Hrun|].
  split; [by apply spec_format_pattern|].
  split; [subst b'; cbn; by rewrite V6|].
  split; [|reflexivity].
  subst b'. cbn. eexists. split; [reflexivity|].
  set (n := Z.lor (Z.land b8 63) 128 / 16) in *.
  assert (Hn : n = 8 \/ n = 9 \/ n = 10 \/ n = 11) by lia.
  destruct Hn as [-> | [-> | [-> | ->]]]; cbn; lia.
Qed.

Lemma generate_valid_witness :
  (length (replicate 16 255) = 16%nat /\ bytes (replicate 16 255))
  /\ exists u b6 b8,
    replicate 16 255 !! 6%nat = Some b6 /\ replicate 16 255 !! 8%nat = Some b8
    /\ sqlite3_uuid (replicate 16 255) (fun _ => 0) = Done (ResultText u)
    /\ canonical_pattern u = true
    /\ u !! 14%nat = Some 52
    /\ (exists c, u !! 19%nat = Some c /\ (c = 56 \/ c = 57 \/ c = 97 \/ c = 98))
    /\ u = spec_format (<[8%nat := Z.lor (Z.land b8 63) 128]>
                          (<[6%nat := Z.lor (Z.land b6 15) 64]>
                             (replicate 16 255))).
Proof.
  assert (Hb : bytes (replicate 16 255)) by (repeat constructor; lia).
  split; [by split|].
  by apply (generate_valid (replicate 16 255) (fun _ => 0)).
Defined.

(** C3.  The parser returns 1 on a string with fewer than 32 hex digits,
    on one with more than 32, on one where, after the optional opening
    brace and fewer than 16 complete byte groups, the two characters that
    follow the optional hyphen are not both hex digits, and on one where
    something other than a single closing brace follows the 16th group;
    after 16 groups it returns 0 exactly when the string ends there or
    after one closing brace, and every string it accepts has that
    shape. *)
Theorem parser_rejects_malformed (s : list Z) :
  nul_free s ->
  ((hex_count s < 32)%nat -> rejects s)
  /\ ((32 < hex_count s)%nat -> rejects s)
  /\ (forall gs t,
        skip_char 123 s = groups_chars gs ++ t ->
        (length gs < 16)%nat -> forallb grp_ok gs = true ->
        hex_pair_at (skip_hyphen t) = false -> rejects s)
  /\ (forall gs t,
        skip_char 123 s = groups_chars gs ++ t ->
        length gs = 16%nat -> forallb grp_ok gs = true ->
        (skip_char 125 t <> [] -> rejects s)
        /\ (skip_char 125 t = [] -> accepts s (map grp_byte gs)))
  /\ (forall bs, accepts s bs ->
        exists ob gs cb, s = loose ob gs cb /\ length gs = 16%nat
          /\ forallb grp_ok gs = true /\ bs = map grp_byte gs).
Proof.
  intros Hs.
  split; [intros; apply rejects_wrong_count; [done | lia]|].
  split; [intros; apply rejects_wrong_count; [done | lia]|].
  split; [|split].
  - intros gs t. by apply rejects_no_pair.
  - intros gs t Hsk Hlen Hok.
    pose proof (parse_after_groups s gs t Hsk Hlen Hok) as Hp.
    split; intros Ht.
    + apply parse_rejects; [done|]. rewrite Hp. by destruct (skip_char 125 t).
    + apply parse_accepts; [done|]. by rewrite Hp, Ht.
  - intros bs Ha. apply parse_inv. by apply accepts_parse.
Qed.

Lemma parser_rejects_malformed_witness :
  rejects (chars "a0eebc999c0b4ef8bb6d6bb9bd380a1")
  /\ rejects (chars "a0eebc999c0b4ef8bb6d6bb9bd380a11f")
  /\ rejects (chars "a0eg")
  /\ rejects (canon ++ chars "x")
  /\ rejects (canon ++ chars "}}")
  /\ accepts (canon ++ chars "}") canon_blob.
Proof.
  repeat split.
  - destruct (parser_rejects_malformed (chars "a0eebc999c0b4ef8bb6d6bb9bd380a1"))
      as (H & _); [by apply nul_free_check|].
    apply H. vm_compute. lia.
  - destruct (parser_rejects_malformed (chars "a0eebc999c0b4ef8bb6d6bb9bd380a11f"))
      as (_ & H & _); [by apply nul_free_check|].
    apply H. vm_compute. lia.
  - destruct (parser_rejects_malformed (chars "a0eg")) as (_ & _ & H & _);
      [by apply nul_free_check|].
    apply (H [Grp false 97 48] (chars "eg")); [reflexivity | simpl; lia | reflexivity..].
  - destruct (parser_rejects_malformed (canon ++ chars "x")) as (_ & _ & _ & H & _);
      [by apply nul_free_check|].
    apply (H (canon_groups canon_blob) (chars "x")); [reflexivity..| discriminate].
  - destruct (parser_rejects_malformed (canon ++ chars "}}")) as (_ & _ & _ & H & _);
      [by apply nul_free_check|].
    apply (H (canon_groups canon_blob) (chars "}}")); [reflexivity..| discriminate].
  - destruct (parser_rejects_malformed (canon ++ chars "}")) as (_ & _ & _ & H & _);
      [by apply nul_free_check|].
    apply (H (canon_groups canon_blob) (chars "}")); reflexivity.
Defined.

(** C4.  Two accepted strings with the same digits, whatever the case of
    the digits, the braces and the hyphens of each, parse to the same
    bytes, and [uuid_str] returns the same text for both: their common
    digits in lower case, grouped 8-4-4-4-12.  In particular
    [{a0eebc99-9c0b4ef8-bb6d6bb9-bd380a11}] gives
    [a0eebc99-9c0b-4ef8-bb6d-6bb9bd380a11]. *)
Theorem canonicalization :
  (forall s1 s2 b1 b2 junk1 junk2,
     nul_free s1 -> nul_free s2 -> accepts s1 b1 -> accepts s2 b2 ->
     uuid_digits s1 = uuid_digits s2 ->
     exists u,
       sqlite3_uuid_str (SQLITE_TEXT s1) junk1 = Done (ResultText u)
       /\ sqlite3_uuid_str (SQLITE_TEXT s2) junk2 = Done (ResultText u)
       /\ u = hyphenate (uuid_digits s1)
       /\ canonical_pattern u = true
       /\ b1 = b2)
  /\ (forall junk,
        sqlite3_uuid_str
          (SQLITE_TEXT (chars "{a0eebc99-9c0b4ef8-bb6d6bb9-bd380a11}")) junk
        = Done (ResultText (chars "a0eebc99-9c0b-4ef8-bb6d-6bb9bd380a11"))).
Proof.
  split; [|reflexivity].
  intros s1 s2 b1 b2 junk1 junk2 Hs1 Hs2 Ha1 Ha2 Hd.
  apply accepts_parse in Ha1; [|done]. apply accepts_parse in Ha2; [|done].
  pose proof (parse_format_digits _ _ Ha1) as F1.
  pose proof (parse_format_digits _ _ Ha2) as F2.
  destruct (parse_bytes _ _ Ha1) as [L1 B1].
  destruct (parse_bytes _ _ Ha2) as [L2 B2].
  exists (spec_format b1).
  rewrite !uuid_str_text, !c_text_id, Ha1, Ha2 by done.
  split; [done|]. split; [by rewrite F1, F2, Hd|]. split; [done|].
  split; [by apply spec_format_pattern|].
  assert (Heq : Some b1 = Some b2); [|by inversion Heq].
  rewrite <- (parse_spec_format b1), <- (parse_spec_format b2) by done.
  by rewrite F1, F2, Hd.
Qed.

Lemma canonicalization_witness :
  (nul_free (chars "A0EEBC99-9C0B-4EF8-BB6D-6BB9BD380A11")
   /\ nul_free (chars "{a0ee-bc99-9c0b-4ef8-bb6d-6bb9-bd38-0a11")
   /\ accepts (chars "A0EEBC99-9C0B-4EF8-BB6D-6BB9BD380A11") canon_blob
   /\ accepts (chars "{a0ee-bc99-9c0b-4ef8-bb6d-6bb9-bd38-0a11") canon_blob
   /\ uuid_digits (chars "A0EEBC99-9C0B-4EF8-BB6D-6BB9BD380A11")
      = uuid_digits (chars "{a0ee-bc99-9c0b-4ef8-bb6d-6bb9-bd38-0a11"))
  /\ exists u,
       sqlite3_uuid_str
         (SQLITE_TEXT (chars "A0EEBC99-9C0B-4EF8-BB6D-6BB9BD380A11"))
         (fun _ => 0) = Done (ResultText u)
       /\ sqlite3_uuid_str
            (SQLITE_TEXT (chars "{a0ee-bc99-9c0b-4ef8-bb6d-6bb9-bd38-0a11"))
            (fun _ => 255) = Done (ResultText u)
       /\ u = hyphenate (uuid_digits (chars "A0EEBC99-9C0B-4EF8-BB6D-6BB9BD380A11"))
       /\ canonical_pattern u = true
       /\ canon_blob = canon_blob.
Proof.
  assert (H1 : nul_free (chars "A0EEBC99-9C0B-4EF8-BB6D-6BB9BD380A11"))
    by (by apply nul_free_check).
  assert (H2 : nul_free (chars "{a0ee-bc99-9c0b-4ef8-bb6d-6bb9-bd38-0a11"))
    by (by apply nul_free_check).
  assert (A1 : accepts (chars "A0EEBC99-9C0B-4EF8-BB6D-6BB9BD380A11") canon_blob)
    by (by apply parse_accepts).
  assert (A2 : accepts (chars "{a0ee-bc99-9c0b-4ef8-bb6d-6bb9-bd38-0a11") canon_blob)
    by (by apply parse_accepts).
  assert (Hd : uuid_digits (chars "A0EEBC99-9C0B-4EF8-BB6D-6BB9BD380A11")
               = uuid_digits (chars "{a0ee-bc99-9c0b-4ef8-bb6d-6bb9-bd38-0a11"))
    by (vm_compute; reflexivity).
  split; [exact (conj H1 (conj H2 (conj A1 (conj A2 Hd))))|].
  exact (proj1 canonicalization _ _ canon_blob canon_blob
           (fun _ => 0) (fun _ => 255) H1 H2 A1 A2 Hd).
Defined.

(** C5.  On every 16-byte blob the formatter succeeds (it has no failure
    mode) and writes exactly 36 characters and a terminator: the bytes in
    order, each as two lower-case hex digits, high nibble first, with a
    hyphen exactly before the bytes 4, 6, 8 and 10 (so at the offsets 8,
    13, 18, 23 of the text), and no separator at the end. *)
Theorem formatter_canonical (aBlob zBuf : list Z) :
  length aBlob = 16%nat -> bytes aBlob -> (37 <= length zBuf)%nat ->
  exists out,
    sqlite3_uuid_blob_to_str aBlob zBuf = Done (out ++ 0 :: drop 37 zBuf)
    /\ length out = 36%nat
    /\ out = spec_format aBlob
    /\ canonical_pattern out = true
    /\ last out <> Some 45.
Proof.
  intros Hlen Hb Hz. exists (spec_format aBlob).
  split; [by apply blob_to_str_spec|].
  split; [by apply spec_format_length|].
  split; [reflexivity|].
  split; [by apply spec_format_pattern|].
  do 16 (destruct aBlob as [|? aBlob]; [discriminate Hlen|]).
  destruct aBlob; [|discriminate Hlen].
  split_bytes Hb. cbn. intros [= Heq].
  match goal with H : 0 <= ?x < 256 |- _ =>
    match type of Heq with context [x] =>
      pose proof (lower_lo x H) as Hl end end.
  rewrite Heq in Hl. discriminate Hl.
Qed.

Lemma formatter_canonical_witness :
  (length canon_blob = 16%nat /\ bytes canon_blob
   /\ (37 <= length (replicate 37 255))%nat)
  /\ exists out,
    sqlite3_uuid_blob_to_str canon_blob (replicate 37 255)
    = Done (out ++ 0 :: drop 37 (replicate 37 255))
    /\ length out = 36%nat
    /\ out = spec_format canon_blob
    /\ canonical_pattern out = true
    /\ last out <> Some 45.
Proof.
  assert (Hb : bytes canon_blob) by (repeat constructor; lia).
  assert (Hz : (37 <= length (replicate 37 255))%nat) by (simpl; lia).
  split; [by repeat split|].
  by apply (formatter_canonical canon_blob (replicate 37 255)).
Defined.

(** C6.  Before each of the 16 byte groups, the first included, one
    hyphen may or may not stand, independently of the canonical positions:
    every such string is accepted.  Two hyphens in a row where a byte
    group has to start make the parser return 1. *)
Theorem hyphen_before_any_group :
  (forall ob gs cb,
     length gs = 16%nat -> forallb grp_ok gs = true ->
     accepts (loose ob gs cb) (map grp_byte gs))
  /\ (forall s gs t,
        nul_free s ->
        skip_char 123 s = groups_chars gs ++ 45 :: 45 :: t ->
        (length gs < 16)%nat -> forallb grp_ok gs = true ->
        rejects s).
Proof.
  split.
  - intros ob gs cb. apply accepts_loose.
  - intros s gs t Hs Hsk Hlen Hok.
    apply (rejects_no_pair s gs (45 :: 45 :: t)); try done. by destruct t.
Qed.

Lemma hyphen_before_any_group_witness :
  accepts (chars "-a0-ee-bc-99-9c-0b-4e-f8-bb-6d-6b-b9-bd-38-0a-11") canon_blob
  /\ accepts (chars "a0ee-bc99-9c0b-4ef8-bb6d-6bb9-bd38-0a11") canon_blob
  /\ rejects (chars "a0eebc99--9c0b-4ef8-bb6d-6bb9bd380a11").
Proof.
  destruct hyphen_before_any_group as [Hacc Hrej].
  split; [|split].
  - apply (Hacc false (zip_with byte_grp (replicate 16 true) canon_blob) false);
      reflexivity.
  - apply (Hacc false
             (zip_with byte_grp
                [false; false; true; false; true; false; true; false;
                 true; false; true; false; true; false; true; false]
                canon_blob) false); reflexivity.
  - apply (Hrej (chars "a0eebc99--9c0b-4ef8-bb6d-6bb9bd380a11")
             (zip_with byte_grp (replicate 4 false) (take 4 canon_blob))
             (chars "9c0b-4ef8-bb6d-6bb9bd380a11"));
      [by apply nul_free_check | reflexivity | simpl; lia | reflexivity].
Defined.

(** C7.  The braces are optional one by one: around any 16 byte groups,
    an opening brace alone, a closing brace alone, both, or none are all
    accepted, with the same 16 bytes as the result. *)
Theorem braces_independent (gs : list grp) :
  length gs = 16%nat -> forallb grp_ok gs = true ->
  accepts (123 :: groups_chars gs) (map grp_byte gs)
  /\ accepts (groups_chars gs ++ [125]) (map grp_byte gs)
  /\ accepts (123 :: groups_chars gs ++ [125]) (map grp_byte gs)
  /\ accepts (groups_chars gs) (map grp_byte gs).
Proof.
  intros Hlen Hok.
  pose proof (accepts_loose true gs false Hlen Hok) as H1.
  pose proof (accepts_loose false gs true Hlen Hok) as H2.
  pose proof (accepts_loose true gs true Hlen Hok) as H3.
  pose proof (accepts_loose false gs false Hlen Hok) as H4.
  unfold loose in *. simpl in *. rewrite app_nil_r in H1, H4. done.
Qed.

Lemma braces_independent_witness :
  (length (canon_groups canon_blob) = 16%nat
   /\ forallb grp_ok (canon_groups canon_blob) = true)
  /\ accepts (chars "{a0eebc99-9c0b-4ef8-bb6d-6bb9bd380a11") canon_blob
  /\ accepts (chars "a0eebc99-9c0b-4ef8-bb6d-6bb9bd380a11}") canon_blob
  /\ accepts (chars "{a0eebc99-9c0b-4ef8-bb6d-6bb9bd380a11}") canon_blob
  /\ accepts (chars "a0eebc99-9c0b-4ef8-bb6d-6bb9bd380a11") canon_blob.
Proof.
  split; [by split|].
  exact (braces_independent (canon_groups canon_blob) eq_refl eq_refl).
Defined.

(** C8.  On a blob the normalizer returns a non-null pointer exactly when
    the blob has 16 bytes, and the pointer then refers to the bytes of the
    blob itself; a blob of any other length (15 or 17 bytes, say) and any
    value that is neither text nor blob give the null pointer. *)
Theorem normalizer_blob (b pBuf : list Z) :
  ((exists r, sqlite3_uuid_input_to_blob (SQLITE_BLOB b) pBuf
              = Done (pBuf, Some r)) <-> length b = 16%nat)
  /\ (forall r pBuf', sqlite3_uuid_input_to_blob (SQLITE_BLOB b) pBuf
                      = Done (pBuf', Some r) -> r = b)
  /\ (length b <> 16%nat ->
      sqlite3_uuid_input_to_blob (SQLITE_BLOB b) pBuf = Done (pBuf, None))
  /\ (forall v, (forall z, v <> SQLITE_TEXT z) -> (forall b', v <> SQLITE_BLOB b') ->
      sqlite3_uuid_input_to_blob v pBuf = Done (pBuf, None)).
Proof.
  unfold sqlite3_uuid_input_to_blob.
  destruct (Z.of_nat (length b) =? 16) eqn:E.
  - assert (Hl : length b = 16%nat) by lia.
    split; [split; [done | by exists b]|].
    split; [by intros r pBuf' [= _ <-]|].
    split; [done|].
    intros [n| |z|b'|] Ht Hb;
      [done | done | by destruct (Ht z) | by destruct (Hb b') | done].
  - assert (Hl : length b <> 16%nat) by lia.
    split; [split; [by intros [r [=]] | done]|].
    split; [by intros r pBuf' [=]|].
    split; [done|].
    intros [n| |z|b'|] Ht Hb;
      [done | done | by destruct (Ht z) | by destruct (Hb b') | done].
Qed.

Lemma normalizer_blob_witness :
  sqlite3_uuid_input_to_blob (SQLITE_BLOB canon_blob) (replicate 16 0)
  = Done (replicate 16 0, Some canon_blob)
  /\ sqlite3_uuid_input_to_blob (SQLITE_BLOB (replicate 15 7)) (replicate 16 0)
     = Done (replicate 16 0, None)
  /\ sqlite3_uuid_input_to_blob (SQLITE_BLOB (replicate 17 7)) (replicate 16 0)
     = Done (replicate 16 0, None)
  /\ sqlite3_uuid_input_to_blob SQLITE_NULL (replicate 16 0)
     = Done (replicate 16 0, None).
Proof.
  split; [|split; [|split]].
  - destruct (normalizer_blob canon_blob (replicate 16 0)) as ([_ H] & Heq & _).
    destruct (H eq_refl) as [r Hr]. pose proof (Heq _ _ Hr) as Hrb.
    rewrite Hrb in Hr. exact Hr.
  - destruct (normalizer_blob (replicate 15 7) (replicate 16 0))
      as (_ & _ & H & _). apply H. simpl. lia.
  - destruct (normalizer_blob (replicate 17 7) (replicate 16 0))
      as (_ & _ & H & _). apply H. simpl. lia.
  - destruct (normalizer_blob [] (replicate 16 0)) as (_ & _ & _ & H).
    by apply H.
Defined.

(** What a failed parse leaves behind stays in the scratch buffer of the
    caller: the pointer returned is null. *)
Example failed_parse_scratch :
  sqlite3_uuid_input_to_blob (SQLITE_TEXT (chars "a0eg")) (replicate 16 0)
  = Done (160 :: replicate 15 0, None).
Proof. reflexivity. Qed.

(** The parser has stored a converted byte when it returns 1 on [a0eg]:
    the output buffer is not what it was. *)
Lemma failed_parse_writes_bytes :
  sqlite3_uuid_str_to_blob (c_str (chars "a0eg")) 0 (replicate 16 0)
  = Done (1, 160 :: replicate 15 0)
  /\ 160 :: replicate 15 0 <> replicate 16 0.
Proof. split; [reflexivity | discriminate]. Qed.

(** C9.  Whatever the text, the parser ends with 0 or 1.  With 1 it has
    stored the bytes of the valid byte groups the string starts with (all
    there are up to the first place where two hex digits are missing, or
    all 16 when what follows them is not the end) at the start of the
    output buffer and left the rest of the buffer as it was; the
    normalizer then returns the null pointer, not that buffer, and both
    SQL functions return without a result.  With 0 the output buffer holds
    16 bytes that depend on the text alone, not on what the buffer held
    before; [uuid_blob] returns exactly these and [uuid_str] their
    36-character text. *)
Theorem partial_bytes_not_returned (z pBuf : list Z) (junk : nat -> Z) :
  length pBuf = 16%nat ->
  exists rc pBuf',
    sqlite3_uuid_str_to_blob (c_str z) 0 pBuf = Done (rc, pBuf')
    /\ (rc = 0 \/ rc = 1)
    /\ (rc <> 0 ->
        (exists gs t,
           skip_char 123 (c_text z) = groups_chars gs ++ t
           /\ forallb grp_ok gs = true /\ (length gs <= 16)%nat
           /\ ((length gs < 16)%nat -> hex_pair_at (skip_hyphen t) = false)
           /\ (length gs = 16%nat -> skip_char 125 t <> [])
           /\ pBuf' = map grp_byte gs ++ drop (length gs) pBuf)
        /\ sqlite3_uuid_input_to_blob (SQLITE_TEXT z) pBuf = Done (pBuf', None)
        /\ sqlite3_uuid_blob (SQLITE_TEXT z) junk = Done NoResult
        /\ sqlite3_uuid_str (SQLITE_TEXT z) junk = Done NoResult)
    /\ (rc = 0 ->
        length pBuf' = 16%nat /\ bytes pBuf'
        /\ (forall pBuf2, length pBuf2 = 16%nat ->
              sqlite3_uuid_str_to_blob (c_str z) 0 pBuf2 = Done (0, pBuf'))
        /\ sqlite3_uuid_input_to_blob (SQLITE_TEXT z) pBuf
           = Done (pBuf', Some pBuf')
        /\ sqlite3_uuid_blob (SQLITE_TEXT z) junk = Done (ResultBlob pBuf')
        /\ sqlite3_uuid_str (SQLITE_TEXT z) junk
           = Done (ResultText (spec_format pBuf'))
        /\ length (spec_format pBuf') = 36%nat).
Proof.
  intros Hlen. eexists _, _. split; [by apply str_to_blob_text|].
  rewrite input_to_blob_text, uuid_blob_text, uuid_str_text by done.
  destruct (scan_decompose 16 (skip_char 123 (c_text z)))
    as (gs & t & Hsk & Hok & Hl & Hmax).
  pose proof (parse_groups _ gs t Hsk Hok Hl Hmax) as Hparse.
  destruct (parse (c_text z)) as [bs|] eqn:Hp.
  - split; [by left|]. split; [done|]. intros _.
    rewrite (parse_written _ bs) by done.
    destruct (parse_bytes _ _ Hp) as [Hlb Hb].
    split; [done|]. split; [done|]. split.
    { intros pBuf2 H2. rewrite str_to_blob_text by done.
      by rewrite Hp, (parse_written _ bs). }
    split; [done|]. split; [done|]. split; [done|].
    by apply spec_format_length.
  - split; [by right|]. split; [|intros [=]]. intros _.
    split; [|done]. exists gs, t.
    split; [done|]. split; [done|]. split; [done|]. split; [done|].
    split; [|by apply (written_groups _ gs t)].
    intros H16 Ht. rewrite H16, Ht in Hparse. done.
Qed.

Lemma partial_bytes_not_returned_witness :
  length (replicate 16 0) = 16%nat
  /\ exists rc pBuf',
    sqlite3_uuid_str_to_blob (c_str (chars "a0eg")) 0 (replicate 16 0)
    = Done (rc, pBuf')
    /\ (rc = 0 \/ rc = 1)
    /\ (rc <> 0 ->
        (exists gs t,
           skip_char 123 (c_text (chars "a0eg")) = groups_chars gs ++ t
           /\ forallb grp_ok gs = true /\ (length gs <= 16)%nat
           /\ ((length gs < 16)%nat -> hex_pair_at (skip_hyphen t) = false)
           /\ (length gs = 16%nat -> skip_char 125 t <> [])
           /\ pBuf' = map grp_byte gs ++ drop (length gs) (replicate 16 0))
        /\ sqlite3_uuid_input_to_blob (SQLITE_TEXT (chars "a0eg")) (replicate 16 0)
           = Done (pBuf', None)
        /\ sqlite3_uuid_blob (SQLITE_TEXT (chars "a0eg")) (fun _ => 0)
           = Done NoResult
        /\ sqlite3_uuid_str (SQLITE_TEXT (chars "a0eg")) (fun _ => 0)
           = Done NoResult)
    /\ (rc = 0 ->
        length pBuf' = 16%nat /\ bytes pBuf'
        /\ (forall pBuf2, length pBuf2 = 16%nat ->
              sqlite3_uuid_str_to_blob (c_str (chars "a0eg")) 0 pBuf2
              = Done (0, pBuf'))
        /\ sqlite3_uuid_input_to_blob (SQLITE_TEXT (chars "a0eg"))
             (replicate 16 0) = Done (pBuf', Some pBuf')
        /\ sqlite3_uuid_blob (SQLITE_TEXT (chars "a0eg")) (fun _ => 0)
           = Done (ResultBlob pBuf')
        /\ sqlite3_uuid_str (SQLITE_TEXT (chars "a0eg")) (fun _ => 0)
           = Done (ResultText (spec_format pBuf'))
        /\ length (spec_format pBuf') = 36%nat).
Proof.
  split; [reflexivity|].
  exact (partial_bytes_not_returned (chars "a0eg") (replicate 16 0)
           (fun _ => 0) eq_refl).
Defined.

(** C10.  On a zero-terminated string the parser never reads past the
    first terminator: run on the buffer that ends with that terminator it
    completes without an out-of-bounds access (and without a failed
    assertion), and whatever follows the terminator in a longer buffer
    changes nothing of the outcome. *)
Theorem parser_reads_within_string (s rest aBlob : list Z) :
  nul_free s -> length aBlob = 16%nat ->
  exists r,
    sqlite3_uuid_str_to_blob (c_str s) 0 aBlob = Done r
    /\ sqlite3_uuid_str_to_blob (s ++ 0 :: rest) 0 aBlob = Done r.
Proof.
  intros Hs Hlen. eexists. unfold c_str.
  by rewrite !str_to_blob_run.
Qed.

Lemma parser_reads_within_string_witness :
  (nul_free (chars "a0-") /\ length (replicate 16 0) = 16%nat)
  /\ exists r,
    sqlite3_uuid_str_to_blob (c_str (chars "a0-")) 0 (replicate 16 0) = Done r
    /\ sqlite3_uuid_str_to_blob (chars "a0-" ++ 0 :: [1; 2; 3]) 0
         (replicate 16 0) = Done r.
Proof.
  assert (Hs : nul_free (chars "a0-")) by (by apply nul_free_check).
  split; [by split|].
  by apply (parser_reads_within_string (chars "a0-") [1; 2; 3] (replicate 16 0)).
Defined.

(** * Further properties of the code *)

(** ** sqlite3UuidHexToInt *)

(** X1.  The bit trick of the digit decoder is right: it gives [h - '0'] on
    a decimal digit, [h - 'a' + 10] on a lower-case and [h - 'A' + 10] on
    an upper-case letter digit, so both cases of a letter decode alike;
    on any other character the assertion fails. *)
Theorem hex_to_int_table (h : Z) :
  (48 <= h <= 57 -> sqlite3UuidHexToInt h = Done (h - 48))
  /\ (97 <= h <= 102 -> sqlite3UuidHexToInt h = Done (h - 87))
  /\ (65 <= h <= 70 ->
      sqlite3UuidHexToInt h = Done (h - 55)
      /\ sqlite3UuidHexToInt (h + 32) = Done (h - 55))
  /\ (isxdigit h = false -> sqlite3UuidHexToInt h = Fault AssertFail).
Proof.
  pose (P := fun h =>
    implb (isxdigit h)
      (hex_val h =? (if h <=? 57 then h - 48 else if h <=? 70 then h - 55
                     else h - 87))).
  assert (HP : forall c, isxdigit c = true ->
            hex_val c = (if c <=? 57 then c - 48 else if c <=? 70 then c - 55
                         else c - 87)).
  { intros c Hc.
    assert (H : P c = true)
      by (apply (range_check P 48 55); [reflexivity | by apply isxdigit_range]).
    unfold P in H. rewrite Hc in H. simpl in H. lia. }
  assert (Hrun : forall c, isxdigit c = true ->
            sqlite3UuidHexToInt c = Done (hex_val c)).
  { intros c Hc. by destruct (hex_char_facts c Hc) as (_ & _ & ? & _). }
  split; [|split; [|split]].
  - intros Hh. assert (Hx : isxdigit h = true) by (unfold isxdigit; lia).
    rewrite Hrun, HP by done. f_equal.
    replace (h <=? 57) with true by lia. done.
  - intros Hh. assert (Hx : isxdigit h = true) by (unfold isxdigit; lia).
    rewrite Hrun, HP by done. f_equal.
    replace (h <=? 57) with false by lia. replace (h <=? 70) with false by lia.
    done.
  - intros Hh. assert (Hx : isxdigit h = true) by (unfold isxdigit; lia).
    assert (Hy : isxdigit (h + 32) = true) by (unfold isxdigit; lia).
    rewrite !Hrun, !HP by done.
    replace (h <=? 57) with false by lia. replace (h <=? 70) with true by lia.
    replace (h + 32 <=? 57) with false by lia.
    replace (h + 32 <=? 70) with false by lia.
    split; f_equal; lia.
  - intros Hh. unfold sqlite3UuidHexToInt. fold (isxdigit h). by rewrite Hh.
Qed.

Lemma hex_to_int_table_witness :
  sqlite3UuidHexToInt 57 = Done 9
  /\ sqlite3UuidHexToInt 102 = Done 15
  /\ (sqlite3UuidHexToInt 70 = Done 15 /\ sqlite3UuidHexToInt (70 + 32) = Done 15)
  /\ sqlite3UuidHexToInt 103 = Fault AssertFail.
Proof.
  split; [|split; [|split]].
  - apply (proj1 (hex_to_int_table 57)). lia.
  - apply (proj1 (proj2 (hex_to_int_table 102))). lia.
  - apply (proj1 (proj2 (proj2 (hex_to_int_table 70)))). lia.
  - apply (proj2 (proj2 (proj2 (hex_to_int_table 103)))). reflexivity.
Defined.

(** ** Faults of the parser and of the formatter *)

Lemma load_done buf p v : load buf p = Done v -> buf !! p = Some v.
Proof. unfold load. by destruct (buf !! p); intros [=]; subst. Qed.

Lemma load_fault buf p f : load buf p = Fault f -> f = OutOfBounds.
Proof. unfold load. destruct (buf !! p); by intros [=]. Qed.

Lemma store_done buf p v buf' :
  store buf p v = Done buf' -> (p < length buf)%nat /\ length buf' = length buf.
Proof.
  unfold store. destruct (decide _); intros [=]; subst.
  by rewrite length_insert.
Qed.

Lemma store_fault buf p v f : store buf p v = Fault f -> f = OutOfBounds.
Proof. unfold store. destruct (decide _); by intros [=]. Qed.

Lemma str_to_blob_loop_fault n : forall i zBuf p aBlob f,
  str_to_blob_loop n i zBuf p aBlob = Fault f -> f = OutOfBounds.
Proof.
  induction n as [|n IH]; intros i zBuf p aBlob f; simpl; [done|].
  destruct (load zBuf p) as [c|f0] eqn:L0; cbn [ebind];
    [|intros [= <-]; by eapply load_fault].
  destruct (load zBuf (if c =? 45 then S p else p)) as [c0|f0] eqn:L1;
    cbn [ebind]; [|intros [= <-]; by eapply load_fault].
  destruct (isxdigit c0) eqn:H0; [|done].
  destruct (load zBuf ((if c =? 45 then S p else p) + 1)) as [c1|f1] eqn:L2;
    cbn [ebind]; [|intros [= <-]; by eapply load_fault].
  destruct (isxdigit c1) eqn:H1; [|done].
  destruct (hex_char_facts _ H0) as (_ & _ & -> & _).
  destruct (hex_char_facts _ H1) as (_ & _ & -> & _).
  cbn [ebind].
  destruct (store aBlob i _) as [aBlob'|f0] eqn:S0; cbn [ebind];
    [|intros [= <-]; by eapply store_fault].
  apply IH.
Qed.

(** X2.  Whatever the buffer, the cursor and the output buffer, the parser
    never trips the assertion of the digit decoder: the decoder is only
    reached behind the two [isxdigit] tests, so the only fault the parser
    can end with is an access outside a buffer. *)
Theorem parser_assert_holds (zBuf aBlob : list Z) (zStr : nat) (f : fault) :
  sqlite3_uuid_str_to_blob zBuf zStr aBlob = Fault f -> f = OutOfBounds.
Proof.
  unfold sqlite3_uuid_str_to_blob.
  destruct (load zBuf zStr) as [c|f0] eqn:L0; cbn [ebind];
    [|intros [= <-]; by eapply load_fault].
  destruct (str_to_blob_loop 16 0 zBuf _ aBlob) as [[ex aBlob']|f0] eqn:Hloop;
    cbn [ebind]; [|intros [= <-]; by eapply str_to_blob_loop_fault].
  destruct ex as [q|]; [|done].
  destruct (load zBuf q) as [c1|f0] eqn:L1; cbn [ebind];
    [|intros [= <-]; by eapply load_fault].
  destruct (load zBuf (if c1 =? 125 then S q else q)) as [c2|f2] eqn:L2;
    cbn [ebind]; [done | intros [= <-]; by eapply load_fault].
Qed.

Lemma parser_assert_holds_witness :
  sqlite3_uuid_str_to_blob (chars "a0") 0 (replicate 16 0) = Fault OutOfBounds
  /\ OutOfBounds = OutOfBounds.
Proof.
  split; [reflexivity|].
  by apply (parser_assert_holds (chars "a0") (replicate 16 0) 0 OutOfBounds).
Defined.

Lemma str_to_blob_loop_cursor n : forall i zBuf p aBlob q aBlob',
  str_to_blob_loop n i zBuf p aBlob = Done (Fallthrough q, aBlob') ->
  (p <= q)%nat.
Proof.
  induction n as [|n IH]; intros i zBuf p aBlob q aBlob'; simpl.
  { intros [= <- _]. lia. }
  destruct (load zBuf p) as [c|f0]; cbn [ebind]; [|done].
  destruct (load zBuf (if c =? 45 then S p else p)) as [c0|f0];
    cbn [ebind]; [|done].
  destruct (isxdigit c0); [|done].
  destruct (load zBuf ((if c =? 45 then S p else p) + 1)) as [c1|f1];
    cbn [ebind]; [|done].
  destruct (isxdigit c1); [|done].
  destruct (sqlite3UuidHexToInt c0) as [hi|]; cbn [ebind]; [|done].
  destruct (sqlite3UuidHexToInt c1) as [lo|]; cbn [ebind]; [|done].
  destruct (store aBlob i _) as [a1|]; cbn [ebind]; [|done].
  intros H. apply IH in H. destruct (c =? 45); lia.
Qed.

(** The parser started anywhere in a buffer, on the string that lies
    between the cursor and the next zero byte. *)
Lemma str_to_blob_run_at zBuf p s rest aBlob :
  drop p zBuf = s ++ 0 :: rest -> nul_free s -> length aBlob = 16%nat ->
  sqlite3_uuid_str_to_blob zBuf p aBlob
  = Done (match parse s with Some _ => 0 | None => 1 end, written s aBlob).
Proof.
  intros Hd Hs Hlen. unfold sqlite3_uuid_str_to_blob, parse, written.
  destruct (skip_step 123 zBuf p s rest ltac:(done) Hd Hs) as (c & -> & Hd1 & Hs1).
  cbn [ebind]. set (p1 := if c =? 123 then S p else p) in *.
  rewrite (str_to_blob_loop_scan 16 0 zBuf p1 _ rest aBlob Hd1 Hs1) by lia.
  cbn [ebind].
  destruct (scan 16 (skip_char 123 s)) as [[bs r]|] eqn:Hscan; [|done].
  cbn [scan_exit].
  destruct (scan_suffix _ _ _ _ Hscan) as [Hbs [u Hu]].
  assert (Hr : nul_free r).
  { rewrite Hu in Hs1. by apply nul_free_app in Hs1 as [_ ?]. }
  assert (Hd2 : drop (p1 + (length (skip_char 123 s) - length r)) zBuf
                = r ++ 0 :: rest).
  { rewrite Hu at 1. apply drop_advance. by rewrite <- Hu. }
  destruct (skip_step 125 zBuf _ r rest ltac:(done) Hd2 Hr)
    as (c2 & -> & Hd3 & Hs3).
  cbn [ebind].
  destruct (load_end zBuf _ _ rest Hd3 Hs3) as (c3 & -> & Hc3).
  cbn [ebind]. rewrite Hc3.
  by destruct (skip_char 125 r).
Qed.

Lemma first_zero_split (l : list Z) :
  nul_free l \/ exists s rest, l = s ++ 0 :: rest /\ nul_free s.
Proof.
  induction l as [|c l IH]; [left; constructor|].
  destruct (decide (c = 0)) as [->|Hc].
  - right. exists [], l. split; [done | constructor].
  - destruct IH as [IH|(s & rest & -> & Hs)].
    + left. by apply nul_free_cons.
    + right. exists (c :: s), rest. split; [done | by apply nul_free_cons].
Qed.

Lemma parser_zero_at_cursor zBuf zStr aBlob b :
  sqlite3_uuid_str_to_blob zBuf zStr aBlob = Done (0, b) ->
  exists q, (zStr <= q)%nat /\ zBuf !! q = Some 0.
Proof.
  unfold sqlite3_uuid_str_to_blob.
  destruct (load zBuf zStr) as [c|f0]; cbn [ebind]; [|done].
  destruct (str_to_blob_loop 16 0 zBuf _ aBlob) as [[ex aBlob']|f0] eqn:Hloop;
    cbn [ebind]; [|done].
  destruct ex as [q|]; [|done].
  apply str_to_blob_loop_cursor in Hloop.
  destruct (load zBuf q) as [c1|f0]; cbn [ebind]; [|done].
  destruct (load zBuf (if c1 =? 125 then S q else q)) as [c2|f0] eqn:L2;
    cbn [ebind]; [|done].
  intros [= Hc _]. apply load_done in L2.
  destruct (c2 =? 0) eqn:E; [|done].
  exists (if c1 =? 125 then S q else q). split.
  - destruct (c =? 123), (c1 =? 125); lia.
  - rewrite L2. f_equal. lia.
Qed.

(** X3.  The parser returns 0 only on a terminated loose UUID: when it
    returns 0, the buffer holds, from the cursor on, an optional opening
    brace, 16 valid byte groups, an optional closing brace and then at
    once a zero byte, and the output is the bytes of these groups.  On a
    buffer with no zero byte at or after the cursor it never reports
    success. *)
Theorem parser_success_needs_terminator (zBuf aBlob b : list Z) (zStr : nat) :
  length aBlob = 16%nat ->
  sqlite3_uuid_str_to_blob zBuf zStr aBlob = Done (0, b) ->
  exists ob gs cb rest,
    drop zStr zBuf = loose ob gs cb ++ 0 :: rest
    /\ length gs = 16%nat /\ forallb grp_ok gs = true
    /\ b = map grp_byte gs.
Proof.
  intros Hlen Hrun.
  destruct (first_zero_split (drop zStr zBuf)) as [Hnf|(s & rest & Hd & Hs)].
  - exfalso. destruct (parser_zero_at_cursor _ _ _ _ Hrun) as (q & Hq & Hz).
    assert (Hin : drop zStr zBuf !! (q - zStr)%nat = Some 0).
    { rewrite lookup_drop. by replace (zStr + (q - zStr))%nat with q by lia. }
    apply list_elem_of_lookup_2 in Hin.
    unfold nul_free in Hnf. rewrite Forall_forall in Hnf. by apply (Hnf 0).
  - rewrite (str_to_blob_run_at zBuf zStr s rest) in Hrun by done.
    destruct (parse s) as [bs|] eqn:Hp; [|by inversion Hrun].
    rewrite (parse_written s bs) in Hrun by done. injection Hrun as <-.
    destruct (parse_inv _ _ Hp) as (ob & gs & cb & -> & Hl & Hok & ->).
    by exists ob, gs, cb, rest.
Qed.

Lemma parser_success_needs_terminator_witness :
  (length (replicate 16 0) = 16%nat
   /\ sqlite3_uuid_str_to_blob (chars "xy" ++ c_str canon ++ chars "zz") 2
        (replicate 16 0) = Done (0, canon_blob))
  /\ exists ob gs cb rest,
    drop 2 (chars "xy" ++ c_str canon ++ chars "zz")
    = loose ob gs cb ++ 0 :: rest
    /\ length gs = 16%nat /\ forallb grp_ok gs = true
    /\ canon_blob = map grp_byte gs.
Proof.
  split; [exact (conj eq_refl eq_refl)|].
  exact (parser_success_needs_terminator
           (chars "xy" ++ c_str canon ++ chars "zz") (replicate 16 0)
           canon_blob 2 eq_refl eq_refl).
Defined.

Lemma blob_to_str_loop_done n : forall i k aBlob zBuf p zBuf' p',
  blob_to_str_loop n i k aBlob zBuf p = Done (zBuf', p') ->
  (i + n <= length aBlob \/ n = 0)%nat
  /\ p' = (p + 2 * n + mask_bits n k)%nat
  /\ length zBuf' = length zBuf
  /\ (p' <= length zBuf \/ n = 0)%nat.
Proof.
  induction n as [|n IH]; intros i k aBlob zBuf p zBuf' p'.
  { simpl. intros [= <- <-]. repeat split; lia. }
  cbn [blob_to_str_loop mask_bits].
  set (hy := negb (Z.land k 1 =? 0)).
  assert (Hst : forall st,
    (if hy then zBuf0 <~ store zBuf p 45 ;; Done (zBuf0, S p)
     else Done (zBuf, p)) = Done st ->
    length st.1 = length zBuf /\ st.2 = (if hy then S p else p)
    /\ (st.2 <= length zBuf \/ hy = false)%nat).
  { intros st. destruct hy.
    - destruct (store zBuf p 45) as [z1|] eqn:S0; cbn [ebind]; [|done].
      intros [= <-]. apply store_done in S0 as [? ?]. simpl. repeat split; lia.
    - intros [= <-]. simpl. repeat split; auto. }
  destruct (if hy then _ else _) as [[z1 p1]|] eqn:Hhy; cbn [ebind]; [|done].
  destruct (Hst _ eq_refl) as (Hl1 & Hp1 & _). simpl in Hl1, Hp1. clear Hst.
  destruct (load aBlob i) as [x|] eqn:L0; cbn [ebind]; [|done].
  apply load_done, lookup_lt_Some in L0.
  destruct (load zDigits _) as [d1|]; cbn [ebind]; [|done].
  destruct (store z1 p1 d1) as [z2|] eqn:S1; cbn [ebind]; [|done].
  apply store_done in S1 as [Hb1 Hl2].
  destruct (load zDigits _) as [d2|]; cbn [ebind]; [|done].
  destruct (store z2 (p1 + 1) d2) as [z3|] eqn:S2; cbn [ebind]; [|done].
  apply store_done in S2 as [Hb2 Hl3].
  intros Hrec. apply IH in Hrec as (Hi & Hp' & Hl' & Hle).
  subst p1.
  destruct hy; (repeat split; try lia);
    left; (destruct Hle as [?| ->]; [lia | simpl in Hp'; lia]).
Qed.

Lemma blob_to_str_loop_fault n : forall i k aBlob zBuf p f,
  blob_to_str_loop n i k aBlob zBuf p = Fault f -> f = OutOfBounds.
Proof.
  induction n as [|n IH]; intros i k aBlob zBuf p f; [done|].
  cbn [blob_to_str_loop].
  assert (Hhy : forall f0,
    (if negb (Z.land k 1 =? 0) then
       zBuf0 <~ store zBuf p 45 ;; Done (zBuf0, S p)
     else Done (zBuf, p)) = Fault f0 -> f0 = OutOfBounds).
  { intros f0. destruct (negb _); [|done].
    destruct (store zBuf p 45) as [z1|f1] eqn:S0; cbn [ebind]; [done|].
    intros [= <-]. by eapply store_fault. }
  destruct (if negb _ then _ else _) as [[z1 p1]|f0]; cbn [ebind];
    [clear Hhy | intros [= <-]; by apply Hhy].
  destruct (load aBlob i) as [x|f0] eqn:L0; cbn [ebind];
    [|intros [= <-]; by eapply load_fault].
  destruct (load zDigits (Z.to_nat (Z.shiftr x 4))) as [d1|f0] eqn:L1;
    cbn [ebind]; [|intros [= <-]; by eapply load_fault].
  destruct (store z1 p1 d1) as [z2|f0] eqn:S1; cbn [ebind];
    [|intros [= <-]; by eapply store_fault].
  destruct (load zDigits (Z.to_nat (Z.land x 15))) as [d2|f0] eqn:L2;
    cbn [ebind]; [|intros [= <-]; by eapply load_fault].
  destruct (store z2 (p1 + 1) d2) as [z3|f0] eqn:S2; cbn [ebind];
    [|intros [= <-]; by eapply store_fault].
  apply IH.
Qed.

(** X4.  The formatter performs no length check of its own: it completes
    only if the blob has at least 16 bytes and the output buffer at least
    37, and then the buffer keeps its length; with a shorter blob or a
    shorter buffer it ends in an access outside a buffer. *)
Theorem formatter_needs_room (aBlob zBuf : list Z) :
  (forall r, sqlite3_uuid_blob_to_str aBlob zBuf = Done r ->
     (16 <= length aBlob)%nat /\ (37 <= length zBuf)%nat
     /\ length r = length zBuf)
  /\ ((length aBlob < 16)%nat \/ (length zBuf < 37)%nat ->
      sqlite3_uuid_blob_to_str aBlob zBuf = Fault OutOfBounds).
Proof.
  assert (Hdone : forall r, sqlite3_uuid_blob_to_str aBlob zBuf = Done r ->
     (16 <= length aBlob)%nat /\ (37 <= length zBuf)%nat
     /\ length r = length zBuf).
  { intros r. unfold sqlite3_uuid_blob_to_str.
    destruct (blob_to_str_loop 16 0 1360 aBlob zBuf 0) as [[z1 p1]|] eqn:Hloop;
      cbn [ebind]; [|done].
    apply blob_to_str_loop_done in Hloop as ([Hi|[=]] & Hp & Hl & _).
    intros Hs. apply store_done in Hs as [Hb Hlr].
    change (mask_bits 16 1360) with 4%nat in Hp. lia. }
  split; [exact Hdone|]. intros Hshort.
  destruct (sqlite3_uuid_blob_to_str aBlob zBuf) as [r|f] eqn:Hrun.
  - destruct (Hdone r eq_refl) as (? & ? & _). lia.
  - f_equal. revert Hrun. unfold sqlite3_uuid_blob_to_str.
    destruct (blob_to_str_loop 16 0 1360 aBlob zBuf 0) as [[z1 p1]|f0] eqn:Hloop;
      cbn [ebind].
    + apply store_fault.
    + intros [= <-]. by eapply blob_to_str_loop_fault.
Qed.

Lemma formatter_needs_room_witness :
  (sqlite3_uuid_blob_to_str canon_blob (replicate 37 0) = Done (c_str canon)
   /\ (16 <= length canon_blob)%nat /\ (37 <= length (replicate 37 0))%nat
   /\ length (c_str canon) = length (replicate 37 0))
  /\ sqlite3_uuid_blob_to_str canon_blob (replicate 36 0) = Fault OutOfBounds
  /\ sqlite3_uuid_blob_to_str (take 15 canon_blob) (replicate 37 0)
     = Fault OutOfBounds.
Proof.
  split; [|split].
  - split; [reflexivity|].
    exact (proj1 (formatter_needs_room canon_blob (replicate 37 0))
             (c_str canon) eq_refl).
  - apply (proj2 (formatter_needs_room canon_blob (replicate 36 0))).
    right. simpl. lia.
  - apply (proj2 (formatter_needs_room (take 15 canon_blob) (replicate 37 0))).
    left. simpl. lia.
Defined.

(** X5.  The formatter reads the first 16 bytes of the blob and nothing
    after them: a longer blob gives the text of its first 16 bytes. *)
Theorem formatter_reads_16_bytes (b extra zBuf : list Z) :
  length b = 16%nat -> bytes b -> (37 <= length zBuf)%nat ->
  sqlite3_uuid_blob_to_str (b ++ extra) zBuf
  = Done (spec_format b ++ 0 :: drop 37 zBuf).
Proof.
  intros Hlen Hb Hz.
  pose proof (spec_format_length b Hlen) as H36.
  pose proof (blob_to_str_loop_spec b [] extra 1360 [] zBuf Hb) as Hloop.
  rewrite (render_spec_format b Hlen), H36, Hlen in Hloop.
  cbn [length app Nat.add] in Hloop.
  unfold sqlite3_uuid_blob_to_str. rewrite Hloop by lia. cbn [ebind].
  destruct (drop 36 zBuf) as [|x t] eqn:Hd.
  { apply (f_equal length) in Hd. rewrite length_drop in Hd. simpl in Hd. lia. }
  assert (Ht : drop 37 zBuf = t).
  { change 37%nat with (36 + 1)%nat. rewrite <- drop_drop, Hd. reflexivity. }
  rewrite Ht. apply store_mid with (x := x); [reflexivity | by rewrite H36].
Qed.

Lemma formatter_reads_16_bytes_witness :
  (length canon_blob = 16%nat /\ bytes canon_blob
   /\ (37 <= length (replicate 40 7))%nat)
  /\ sqlite3_uuid_blob_to_str (canon_blob ++ [1; 2; 3]) (replicate 40 7)
     = Done (spec_format canon_blob ++ 0 :: drop 37 (replicate 40 7)).
Proof.
  assert (Hb : bytes canon_blob) by (repeat constructor; lia).
  assert (Hz : (37 <= length (replicate 40 7))%nat) by (simpl; lia).
  split; [exact (conj eq_refl (conj Hb Hz))|].
  exact (formatter_reads_16_bytes canon_blob [1; 2; 3] (replicate 40 7)
           eq_refl Hb Hz).
Defined.

(** ** The SQL functions on any value *)

Lemma list16 (b : list Z) :
  length b = 16%nat ->
  exists z0 z1 z2 z3 z4 z5 z6 z7 z8 z9 z10 z11 z12 z13 z14 z15,
    b = [z0; z1; z2; z3; z4; z5; z6; z7; z8; z9; z10; z11; z12; z13; z14; z15].
Proof.
  intros Hb.
  do 16 (destruct b as [|? b]; [discriminate Hb|]).
  destruct b; [|discriminate Hb]. by repeat eexists.
Qed.

Lemma stamp_ok rnd :
  length rnd = 16%nat -> bytes rnd -> length (stamp rnd) = 16%nat /\ bytes (stamp rnd).
Proof.
  intros Hlen Hb. destruct (list16 rnd Hlen) as (z0 & z1 & z2 & z3 & z4 & z5
    & b6 & z7 & b8 & z9 & z10 & z11 & z12 & z13 & z14 & z15 & ->).
  split; [reflexivity|]. split_bytes Hb.
  assert (H6 : 0 <= b6 < 256) by assumption.
  assert (H8 : 0 <= b8 < 256) by assumption.
  destruct (stamp_version b6 H6) as (_ & R6 & _).
  destruct (stamp_variant b8 H8) as (_ & R8 & _).
  unfold stamp, bytes. cbn. repeat constructor; lia.
Qed.

Lemma sqlite3_uuid_run rnd junk :
  length rnd = 16%nat -> bytes rnd ->
  sqlite3_uuid rnd junk = Done (ResultText (spec_format (stamp rnd))).
Proof.
  intros Hlen Hb. destruct (stamp_ok rnd Hlen Hb) as [Hl2 Hb2]. revert Hl2 Hb2.
  destruct (list16 rnd Hlen) as (z0 & z1 & z2 & z3 & z4 & z5
    & b6 & z7 & b8 & z9 & z10 & z11 & z12 & z13 & z14 & z15 & ->).
  split_bytes Hb.
  assert (H6 : 0 <= b6 < 256) by assumption.
  assert (H8 : 0 <= b8 < 256) by assumption.
  destruct (stamp_version b6 H6) as (E6 & _).
  destruct (stamp_variant b8 H8) as (E8 & _).
  set (b' := stamp _). intros Hl2 Hb2.
  unfold sqlite3_uuid.
  rewrite (load_some _ 6 b6) by reflexivity. cbn [ebind].
  rewrite store_some by (simpl; lia). cbn [ebind].
  rewrite (load_some _ 8 b8) by reflexivity. cbn [ebind].
  rewrite store_some by (simpl; lia). cbn [ebind].
  rewrite E6, E8.
  change (<[8%nat := _]> _) with b'.
  rewrite (blob_to_str_spec b') by (done || by rewrite uninit_length).
  cbn [ebind]. by rewrite take_text by (by apply spec_format_length).
Qed.

Lemma uuid_blob_normalize x junk :
  sqlite3_uuid_blob x junk
  = Done (match normalize x with
          | Some b => ResultBlob b
          | None => NoResult
          end).
Proof.
  destruct x as [n| |z|b|]; try reflexivity.
  - apply uuid_blob_text.
  - unfold sqlite3_uuid_blob, sqlite3_uuid_input_to_blob, normalize.
    cbn [ebind]. destruct (length b =? 16)%nat eqn:E.
    + apply Nat.eqb_eq in E. replace (Z.of_nat (length b) =? 16) with true by lia.
      by rewrite take_ge by lia.
    + apply Nat.eqb_neq in E. by replace (Z.of_nat (length b) =? 16) with false by lia.
Qed.

Lemma uuid_str_normalize x junk :
  value_ok x ->
  sqlite3_uuid_str x junk
  = Done (match normalize x with
          | Some b => ResultText (spec_format b)
          | None => NoResult
          end).
Proof.
  destruct x as [n| |z|b|]; intros Hx; try reflexivity.
  - apply uuid_str_text.
  - unfold sqlite3_uuid_str, sqlite3_uuid_input_to_blob, normalize.
    cbn [ebind]. destruct (length b =? 16)%nat eqn:E.
    + apply Nat.eqb_eq in E. replace (Z.of_nat (length b) =? 16) with true by lia.
      rewrite blob_to_str_spec by (done || by rewrite uninit_length).
      cbn [ebind]. by rewrite take_text by (by apply spec_format_length).
    + apply Nat.eqb_neq in E. by replace (Z.of_nat (length b) =? 16) with false by lia.
Qed.

Lemma normalize_bytes x b :
  value_ok x -> normalize x = Some b -> length b = 16%nat /\ bytes b.
Proof.
  destruct x as [n| |z|b'|]; intros Hx; try done.
  - apply parse_bytes.
  - simpl. destruct (length b' =? 16)%nat eqn:E; [|done].
    intros [= <-]. by apply Nat.eqb_eq in E.
Qed.

Lemma normalize_text_format b :
  length b = 16%nat -> bytes b -> normalize (SQLITE_TEXT (spec_format b)) = Some b.
Proof.
  intros Hl Hb. simpl. rewrite c_text_id by (by apply spec_format_nul_free).
  by apply parse_spec_format.
Qed.

Lemma normalize_blob b : length b = 16%nat -> normalize (SQLITE_BLOB b) = Some b.
Proof. intros Hl. simpl. by rewrite Hl. Qed.

Lemma spec_format_inj b1 b2 :
  length b1 = 16%nat -> bytes b1 -> length b2 = 16%nat -> bytes b2 ->
  spec_format b1 = spec_format b2 -> b1 = b2.
Proof.
  intros L1 B1 L2 B2 Heq.
  assert (H : Some b1 = Some b2); [|by inversion H].
  rewrite <- (parse_spec_format b1), <- (parse_spec_format b2) by done.
  by rewrite Heq.
Qed.

Lemma value_ok_check b :
  forallb (fun x => (0 <=? x) && (x <? 256)) b = true -> bytes b.
Proof.
  intros H. apply Forall_forall. intros c Hc.
  rewrite forallb_forall in H. apply list_elem_of_In, H in Hc. lia.
Qed.

(** X6.  Nothing of what the uninitialised local arrays hold reaches a
    result: [uuid_str] and [uuid_blob] depend on their argument alone (as
    their registration as deterministic functions says), and [uuid4] on
    the random bytes alone. *)
Theorem results_ignore_stack (x : sqlite3_value) (rnd : list Z)
    (junk1 junk2 : nat -> Z) :
  value_ok x -> length rnd = 16%nat -> bytes rnd ->
  sqlite3_uuid_str x junk1 = sqlite3_uuid_str x junk2
  /\ sqlite3_uuid_blob x junk1 = sqlite3_uuid_blob x junk2
  /\ sqlite3_uuid rnd junk1 = sqlite3_uuid rnd junk2.
Proof.
  intros Hx Hl Hb.
  by rewrite !uuid_str_normalize, !uuid_blob_normalize, !sqlite3_uuid_run.
Qed.

Lemma results_ignore_stack_witness :
  (value_ok (SQLITE_BLOB canon_blob) /\ length (replicate 16 255) = 16%nat
   /\ bytes (replicate 16 255))
  /\ sqlite3_uuid_str (SQLITE_BLOB canon_blob) (fun _ => 0)
     = sqlite3_uuid_str (SQLITE_BLOB canon_blob) (fun i => Z.of_nat i)
  /\ sqlite3_uuid_blob (SQLITE_BLOB canon_blob) (fun _ => 0)
     = sqlite3_uuid_blob (SQLITE_BLOB canon_blob) (fun i => Z.of_nat i)
  /\ sqlite3_uuid (replicate 16 255) (fun _ => 0)
     = sqlite3_uuid (replicate 16 255) (fun i => Z.of_nat i).
Proof.
  assert (Hx : value_ok (SQLITE_BLOB canon_blob)) by (by apply value_ok_check).
  assert (Hb : bytes (replicate 16 255)) by (by apply value_ok_check).
  split; [exact (conj Hx (conj eq_refl Hb))|].
  exact (results_ignore_stack (SQLITE_BLOB canon_blob) (replicate 16 255)
           (fun _ => 0) (fun i => Z.of_nat i) Hx eq_refl Hb).
Defined.

(** X7.  On every value the two converters complete: [uuid_str] returns
    no result or a text of the canonical pattern, [uuid_blob] no result or
    a blob of 16 bytes, and the one returns no result exactly when the
    other does, as both go through the same normalizer. *)
Theorem converters_result_shape (x : sqlite3_value) (junk : nat -> Z) :
  value_ok x ->
  (sqlite3_uuid_str x junk = Done NoResult
   \/ exists u, sqlite3_uuid_str x junk = Done (ResultText u)
                /\ canonical_pattern u = true)
  /\ (sqlite3_uuid_blob x junk = Done NoResult
      \/ exists b, sqlite3_uuid_blob x junk = Done (ResultBlob b)
                   /\ length b = 16%nat /\ bytes b)
  /\ (sqlite3_uuid_str x junk = Done NoResult
      <-> sqlite3_uuid_blob x junk = Done NoResult).
Proof.
  intros Hx. rewrite uuid_str_normalize, uuid_blob_normalize by done.
  destruct (normalize x) as [b|] eqn:Hn.
  - destruct (normalize_bytes x b Hx Hn) as [Hl Hb].
    split; [right; eexists; split; [done | by apply spec_format_pattern]|].
    split; [right; by exists b|]. split; intros [=].
  - split; [by left|]. split; [by left | done].
Qed.

Lemma converters_result_shape_witness :
  value_ok (SQLITE_TEXT (chars "{A0EEBC99-9C0B-4EF8-BB6D-6BB9BD380A11}"))
  /\ (sqlite3_uuid_str
        (SQLITE_TEXT (chars "{A0EEBC99-9C0B-4EF8-BB6D-6BB9BD380A11}"))
        (fun _ => 0) = Done NoResult
      \/ exists u,
          sqlite3_uuid_str
            (SQLITE_TEXT (chars "{A0EEBC99-9C0B-4EF8-BB6D-6BB9BD380A11}"))
            (fun _ => 0) = Done (ResultText u)
          /\ canonical_pattern u = true).
Proof.
  split; [exact I|].
  exact (proj1 (converters_result_shape
                  (SQLITE_TEXT (chars "{A0EEBC99-9C0B-4EF8-BB6D-6BB9BD380A11}"))
                  (fun _ => 0) I)).
Defined.

(** X8.  [uuid_str] is idempotent and [uuid_blob] undoes it: the text
    [uuid_str] returns for a value is returned unchanged when it is passed
    to [uuid_str] again, and [uuid_blob] of that text is [uuid_blob] of
    the value. *)
Theorem uuid_str_idempotent (x : sqlite3_value) (u : list Z)
    (junk junk' : nat -> Z) :
  value_ok x ->
  sqlite3_uuid_str x junk = Done (ResultText u) ->
  sqlite3_uuid_str (SQLITE_TEXT u) junk' = Done (ResultText u)
  /\ sqlite3_uuid_blob (SQLITE_TEXT u) junk' = sqlite3_uuid_blob x junk.
Proof.
  intros Hx. rewrite (uuid_str_normalize x) by done.
  rewrite (uuid_str_normalize (SQLITE_TEXT u)) by done.
  rewrite !uuid_blob_normalize.
  destruct (normalize x) as [b|] eqn:Hn; [|done].
  destruct (normalize_bytes x b Hx Hn) as [Hl Hb].
  intros [= <-]. by rewrite normalize_text_format.
Qed.

Lemma uuid_str_idempotent_witness :
  (value_ok (SQLITE_TEXT (chars "{A0EEBC999C0B4EF8BB6D6BB9BD380A11"))
   /\ sqlite3_uuid_str (SQLITE_TEXT (chars "{A0EEBC999C0B4EF8BB6D6BB9BD380A11"))
        (fun _ => 0) = Done (ResultText canon))
  /\ sqlite3_uuid_str (SQLITE_TEXT canon) (fun _ => 1) = Done (ResultText canon)
  /\ sqlite3_uuid_blob (SQLITE_TEXT canon) (fun _ => 1)
     = sqlite3_uuid_blob (SQLITE_TEXT (chars "{A0EEBC999C0B4EF8BB6D6BB9BD380A11"))
         (fun _ => 0).
Proof.
  split; [exact (conj I eq_refl)|].
  exact (uuid_str_idempotent
           (SQLITE_TEXT (chars "{A0EEBC999C0B4EF8BB6D6BB9BD380A11")) canon
           (fun _ => 0) (fun _ => 1) I eq_refl).
Defined.

(** X9.  [uuid_blob] is idempotent and [uuid_str] undoes it: the blob
    [uuid_blob] returns for a value is returned unchanged when it is
    passed to [uuid_blob] again, and [uuid_str] of that blob is [uuid_str]
    of the value. *)
Theorem uuid_blob_idempotent (x : sqlite3_value) (b : list Z)
    (junk junk' : nat -> Z) :
  value_ok x ->
  sqlite3_uuid_blob x junk = Done (ResultBlob b) ->
  sqlite3_uuid_blob (SQLITE_BLOB b) junk' = Done (ResultBlob b)
  /\ sqlite3_uuid_str (SQLITE_BLOB b) junk' = sqlite3_uuid_str x junk.
Proof.
  intros Hx. rewrite (uuid_blob_normalize x).
  destruct (normalize x) as [b'|] eqn:Hn; [|done].
  destruct (normalize_bytes x b' Hx Hn) as [Hl Hb].
  intros [= <-].
  rewrite uuid_blob_normalize, !uuid_str_normalize by done.
  by rewrite normalize_blob, Hn.
Qed.

Lemma uuid_blob_idempotent_witness :
  (value_ok (SQLITE_TEXT canon)
   /\ sqlite3_uuid_blob (SQLITE_TEXT canon) (fun _ => 0)
      = Done (ResultBlob canon_blob))
  /\ sqlite3_uuid_blob (SQLITE_BLOB canon_blob) (fun _ => 1)
     = Done (ResultBlob canon_blob)
  /\ sqlite3_uuid_str (SQLITE_BLOB canon_blob) (fun _ => 1)
     = sqlite3_uuid_str (SQLITE_TEXT canon) (fun _ => 0).
Proof.
  split; [exact (conj I eq_refl)|].
  exact (uuid_blob_idempotent (SQLITE_TEXT canon) canon_blob
           (fun _ => 0) (fun _ => 1) I eq_refl).
Defined.

Lemma variant_bits b : 0 <= b < 256 -> Z.lor (Z.land b 63) 128 / 64 = 2.
Proof.
  intros Hb. pose (P := fun b => Z.lor (Z.land b 63) 128 / 64 =? 2).
  assert (HP : P b = true) by (apply (range_check P 0 256); [reflexivity | lia]).
  unfold P in HP. lia.
Qed.

Lemma stamp_low_bits b :
  0 <= b < 256 ->
  Z.lor (Z.land b 15) 64 = 64 + b mod 16
  /\ Z.lor (Z.land b 63) 128 = 128 + b mod 64.
Proof.
  intros Hb.
  pose (P := fun b => (Z.lor (Z.land b 15) 64 =? 64 + b mod 16)
                      && (Z.lor (Z.land b 63) 128 =? 128 + b mod 64)).
  assert (HP : P b = true) by (apply (range_check P 0 256); [reflexivity | lia]).
  unfold P in HP. lia.
Qed.

(** X10.  What [uuid4] returns is a fixed point of [uuid_str], and
    [uuid_blob] of it is the random fill with the two stamps and nothing
    else changed: byte 6 is [0x40] plus the low nibble of the random
    byte 6, byte 8 is [0x80] plus the low six bits of the random byte 8,
    and every other byte is the random byte. *)
Theorem uuid4_converts_back (rnd u : list Z) (junk junk' : nat -> Z) :
  length rnd = 16%nat -> bytes rnd ->
  sqlite3_uuid rnd junk = Done (ResultText u) ->
  sqlite3_uuid_str (SQLITE_TEXT u) junk' = Done (ResultText u)
  /\ exists r6 r8,
       rnd !! 6%nat = Some r6 /\ rnd !! 8%nat = Some r8
       /\ sqlite3_uuid_blob (SQLITE_TEXT u) junk'
          = Done (ResultBlob (<[8%nat := 128 + r8 mod 64]>
                                (<[6%nat := 64 + r6 mod 16]> rnd))).
Proof.
  intros Hlen Hb. rewrite sqlite3_uuid_run by done. intros [= <-].
  destruct (stamp_ok rnd Hlen Hb) as [Hl2 Hb2].
  rewrite uuid_str_normalize, uuid_blob_normalize by done.
  rewrite normalize_text_format by done. split; [done|].
  clear Hl2 Hb2.
  destruct (list16 rnd Hlen) as (z0 & z1 & z2 & z3 & z4 & z5
    & b6 & z7 & b8 & z9 & z10 & z11 & z12 & z13 & z14 & z15 & ->).
  split_bytes Hb.
  assert (H6 : 0 <= b6 < 256) by assumption.
  assert (H8 : 0 <= b8 < 256) by assumption.
  destruct (stamp_low_bits b6 H6) as [E6 _].
  destruct (stamp_low_bits b8 H8) as [_ E8].
  exists b6, b8. split; [done|]. split; [done|].
  unfold stamp. cbn [lookup list_lookup]. by rewrite E6, E8.
Qed.

Lemma uuid4_converts_back_witness :
  (length (replicate 16 255) = 16%nat /\ bytes (replicate 16 255)
   /\ sqlite3_uuid (replicate 16 255) (fun _ => 0)
      = Done (ResultText (chars "ffffffff-ffff-4fff-bfff-ffffffffffff")))
  /\ sqlite3_uuid_str
       (SQLITE_TEXT (chars "ffffffff-ffff-4fff-bfff-ffffffffffff"))
       (fun _ => 1)
     = Done (ResultText (chars "ffffffff-ffff-4fff-bfff-ffffffffffff"))
  /\ exists r6 r8,
       replicate 16 255 !! 6%nat = Some r6 /\ replicate 16 255 !! 8%nat = Some r8
       /\ sqlite3_uuid_blob
            (SQLITE_TEXT (chars "ffffffff-ffff-4fff-bfff-ffffffffffff"))
            (fun _ => 1)
          = Done (ResultBlob (<[8%nat := 128 + r8 mod 64]>
                                (<[6%nat := 64 + r6 mod 16]> (replicate 16 255)))).
Proof.
  assert (Hb : bytes (replicate 16 255)) by (by apply value_ok_check).
  split; [exact (conj eq_refl (conj Hb eq_refl))|].
  exact (uuid4_converts_back (replicate 16 255)
           (chars "ffffffff-ffff-4fff-bfff-ffffffffffff")
           (fun _ => 0) (fun _ => 1) eq_refl Hb eq_refl).
Defined.

Lemma unstamp_bits b :
  0 <= b < 256 ->
  Z.land (Z.lor (Z.land b 15) 64) 15 = Z.land b 15
  /\ Z.land (Z.lor (Z.land b 63) 128) 63 = Z.land b 63.
Proof.
  intros Hb.
  pose (P := fun b => (Z.land (Z.lor (Z.land b 15) 64) 15 =? Z.land b 15)
                      && (Z.land (Z.lor (Z.land b 63) 128) 63 =? Z.land b 63)).
  assert (HP : P b = true) by (apply (range_check P 0 256); [reflexivity | lia]).
  unfold P in HP. lia.
Qed.

Lemma stamp_unstamped rnd1 rnd2 :
  length rnd1 = 16%nat -> bytes rnd1 -> length rnd2 = 16%nat -> bytes rnd2 ->
  stamp rnd1 = stamp rnd2 <-> unstamped rnd1 = unstamped rnd2.
Proof.
  intros L1 B1 L2 B2.
  destruct (list16 rnd1 L1) as (z0 & z1 & z2 & z3 & z4 & z5
    & b6 & z7 & b8 & z9 & z10 & z11 & z12 & z13 & z14 & z15 & ->).
  destruct (list16 rnd2 L2) as (y0 & y1 & y2 & y3 & y4 & y5
    & c6 & y7 & c8 & y9 & y10 & y11 & y12 & y13 & y14 & y15 & ->).
  split_bytes B1. split_bytes B2.
  assert (H6 : 0 <= b6 < 256) by assumption.
  assert (H8 : 0 <= b8 < 256) by assumption.
  assert (G6 : 0 <= c6 < 256) by assumption.
  assert (G8 : 0 <= c8 < 256) by assumption.
  destruct (unstamp_bits b6 H6) as [U6 _]. destruct (unstamp_bits b8 H8) as [_ U8].
  destruct (unstamp_bits c6 G6) as [W6 _]. destruct (unstamp_bits c8 G8) as [_ W8].
  unfold stamp, unstamped. cbn [lookup list_lookup insert list_insert].
  split; intros [= -> -> -> -> -> -> E6 -> E8 -> -> -> -> -> -> ->].
  - rewrite <- U6, <- U8, E6, E8, W6, W8. reflexivity.
  - by rewrite E6, E8.
Qed.

(** X11.  The two stamps cost six bits and no more: two random fills make
    [uuid4] return the same text exactly when they agree outside the high
    nibble of byte 6 and the top two bits of byte 8. *)
Theorem uuid4_keeps_122_bits (rnd1 rnd2 : list Z) (junk1 junk2 : nat -> Z) :
  length rnd1 = 16%nat -> bytes rnd1 -> length rnd2 = 16%nat -> bytes rnd2 ->
  sqlite3_uuid rnd1 junk1 = sqlite3_uuid rnd2 junk2
  <-> unstamped rnd1 = unstamped rnd2.
Proof.
  intros L1 B1 L2 B2. rewrite !sqlite3_uuid_run by done.
  rewrite <- stamp_unstamped by done.
  destruct (stamp_ok rnd1 L1 B1) as [? ?]. destruct (stamp_ok rnd2 L2 B2) as [? ?].
  split.
  - intros [= Heq]. by apply spec_format_inj.
  - by intros ->.
Qed.

Lemma uuid4_keeps_122_bits_witness :
  (length (replicate 16 255) = 16%nat /\ bytes (replicate 16 255)
   /\ length (<[6%nat := 15]> (replicate 16 255)) = 16%nat
   /\ bytes (<[6%nat := 15]> (replicate 16 255)))
  /\ (sqlite3_uuid (replicate 16 255) (fun _ => 0)
      = sqlite3_uuid (<[6%nat := 15]> (replicate 16 255)) (fun _ => 1)
      <-> unstamped (replicate 16 255)
          = unstamped (<[6%nat := 15]> (replicate 16 255))).
Proof.
  assert (B1 : bytes (replicate 16 255)) by (by apply value_ok_check).
  assert (B2 : bytes (<[6%nat := 15]> (replicate 16 255)))
    by (by apply value_ok_check).
  split; [exact (conj eq_refl (conj B1 (conj eq_refl B2)))|].
  exact (uuid4_keeps_122_bits (replicate 16 255)
           (<[6%nat := 15]> (replicate 16 255)) (fun _ => 0) (fun _ => 1)
           eq_refl B1 eq_refl B2).
Defined.

(** X12.  The formatter is injective: two 16-byte blobs for which it
    writes the same 36 characters are the same blob. *)
Theorem formatter_injective (b1 b2 z1 z2 : list Z) :
  length b1 = 16%nat -> bytes b1 -> (37 <= length z1)%nat ->
  length b2 = 16%nat -> bytes b2 -> (37 <= length z2)%nat ->
  exists r1 r2,
    sqlite3_uuid_blob_to_str b1 z1 = Done r1
    /\ sqlite3_uuid_blob_to_str b2 z2 = Done r2
    /\ (take 36 r1 = take 36 r2 -> b1 = b2).
Proof.
  intros L1 B1 Hz1 L2 B2 Hz2. eexists _, _.
  split; [by apply blob_to_str_spec|]. split; [by apply blob_to_str_spec|].
  rewrite !take_text by (by apply spec_format_length).
  by apply spec_format_inj.
Qed.

Lemma formatter_injective_witness :
  (length canon_blob = 16%nat /\ bytes canon_blob
   /\ (37 <= length (replicate 37 0))%nat
   /\ length (replicate 16 255) = 16%nat /\ bytes (replicate 16 255)
   /\ (37 <= length (replicate 40 1))%nat)
  /\ exists r1 r2,
    sqlite3_uuid_blob_to_str canon_blob (replicate 37 0) = Done r1
    /\ sqlite3_uuid_blob_to_str (replicate 16 255) (replicate 40 1) = Done r2
    /\ (take 36 r1 = take 36 r2 -> canon_blob = replicate 16 255).
Proof.
  assert (B1 : bytes canon_blob) by (by apply value_ok_check).
  assert (B2 : bytes (replicate 16 255)) by (by apply value_ok_check).
  assert (Z1 : (37 <= length (replicate 37 0))%nat) by (simpl; lia).
  assert (Z2 : (37 <= length (replicate 40 1))%nat) by (simpl; lia).
  split; [exact (conj eq_refl (conj B1 (conj Z1 (conj eq_refl (conj B2 Z2)))))|].
  exact (formatter_injective canon_blob (replicate 16 255) (replicate 37 0)
           (replicate 40 1) eq_refl B1 Z1 eq_refl B2 Z2).
Defined.

(** ** More on what the parser accepts *)

Lemma groups_chars_length gs :
  (2 * length gs <= length (groups_chars gs) <= 3 * length gs)%nat.
Proof.
  induction gs as [|g gs IH]; [simpl; lia|].
  cbn [groups_chars flat_map]. fold (groups_chars gs).
  rewrite length_app. unfold grp_chars. rewrite length_app.
  destruct (g_hyphen g); simpl; lia.
Qed.

(** X13.  A string the parser accepts has between 32 and 50 characters:
    32 digits, at most 16 hyphens and at most two braces. *)
Theorem accepted_length (s bs : list Z) :
  nul_free s -> accepts s bs -> (32 <= length s <= 50)%nat.
Proof.
  intros Hs Ha. apply accepts_parse in Ha; [|done].
  destruct (parse_inv _ _ Ha) as (ob & gs & cb & -> & Hl & _ & _).
  unfold loose. rewrite !length_app.
  pose proof (groups_chars_length gs).
  destruct ob, cb; simpl; lia.
Qed.

Lemma accepted_length_witness :
  (nul_free (chars "{-a0-ee-bc-99-9c-0b-4e-f8-bb-6d-6b-b9-bd-38-0a-11}")
   /\ accepts (chars "{-a0-ee-bc-99-9c-0b-4e-f8-bb-6d-6b-b9-bd-38-0a-11}")
        canon_blob)
  /\ (32 <= length (chars "{-a0-ee-bc-99-9c-0b-4e-f8-bb-6d-6b-b9-bd-38-0a-11}")
      <= 50)%nat.
Proof.
  assert (Hs : nul_free
            (chars "{-a0-ee-bc-99-9c-0b-4e-f8-bb-6d-6b-b9-bd-38-0a-11}"))
    by (by apply nul_free_check).
  assert (Ha : accepts
            (chars "{-a0-ee-bc-99-9c-0b-4e-f8-bb-6d-6b-b9-bd-38-0a-11}")
            canon_blob) by (by apply parse_accepts).
  split; [exact (conj Hs Ha)|].
  exact (accepted_length _ canon_blob Hs Ha).
Defined.

Lemma tolower_hex_facts c :
  (tolower_hex c =? 0) = (c =? 0)
  /\ (tolower_hex c =? 45) = (c =? 45)
  /\ (tolower_hex c =? 123) = (c =? 123)
  /\ (tolower_hex c =? 125) = (c =? 125)
  /\ isxdigit (tolower_hex c) = isxdigit c.
Proof.
  unfold tolower_hex, isxdigit.
  destruct ((65 <=? c) && (c <=? 70)) eqn:E; cbv iota;
    repeat split; (reflexivity || lia).
Qed.

Lemma hex_val_tolower c : isxdigit c = true -> hex_val (tolower_hex c) = hex_val c.
Proof.
  intros Hc.
  pose (P := fun c => implb (isxdigit c) (hex_val (tolower_hex c) =? hex_val c)).
  assert (HP : P c = true)
    by (apply (range_check P 48 55); [reflexivity | by apply isxdigit_range]).
  unfold P in HP. rewrite Hc in HP. simpl in HP. lia.
Qed.

Lemma skip_char_tolower k s :
  (forall c, (tolower_hex c =? k) = (c =? k)) ->
  skip_char k (map tolower_hex s) = map tolower_hex (skip_char k s).
Proof.
  intros Hk. destruct s as [|c t]; [done|]. simpl. rewrite Hk.
  by destruct (c =? k).
Qed.

Lemma skip_hyphen_tolower s :
  skip_hyphen (map tolower_hex s) = map tolower_hex (skip_hyphen s).
Proof.
  destruct s as [|c t]; [done|]. simpl.
  destruct (tolower_hex_facts c) as (_ & -> & _). by destruct (c =? 45).
Qed.

Lemma scan_tolower n : forall s,
  scan n (map tolower_hex s)
  = match scan n s with
    | Some (bs, r) => Some (bs, map tolower_hex r)
    | None => None
    end.
Proof.
  induction n as [|n IH]; intros s; [done|].
  cbn [scan]. rewrite skip_hyphen_tolower.
  destruct (skip_hyphen s) as [|c0 [|c1 t]]; try done.
  cbn [map].
  destruct (tolower_hex_facts c0) as (_ & _ & _ & _ & ->).
  destruct (tolower_hex_facts c1) as (_ & _ & _ & _ & ->).
  destruct (isxdigit c0 && isxdigit c1) eqn:Hok; [|done].
  apply andb_true_iff in Hok as [H0 H1].
  rewrite IH. unfold byte_of. rewrite !hex_val_tolower by done.
  by destruct (scan n t) as [[bs r]|].
Qed.

Lemma parse_tolower s : parse (map tolower_hex s) = parse s.
Proof.
  unfold parse.
  rewrite skip_char_tolower by (intros c; by destruct (tolower_hex_facts c) as (_ & _ & -> & _)).
  rewrite scan_tolower.
  destruct (scan 16 (skip_char 123 s)) as [[bs r]|]; [|done].
  rewrite skip_char_tolower by (intros c; by destruct (tolower_hex_facts c) as (_ & _ & _ & -> & _)).
  by destruct (skip_char 125 r).
Qed.

Lemma c_text_tolower z : c_text (map tolower_hex z) = map tolower_hex (c_text z).
Proof.
  induction z as [|c z IH]; [done|]. simpl.
  destruct (tolower_hex_facts c) as (-> & _).
  destruct (c =? 0); [done|]. simpl. by rewrite IH.
Qed.

(** X14.  The case of the letter digits plays no role anywhere in a text:
    two texts that differ only in the case of the letters [A] to [F]
    are both rejected, or both accepted with the same bytes and the same
    canonical text. *)
Theorem converters_ignore_case (z z' : list Z) (junk junk' : nat -> Z) :
  map tolower_hex z = map tolower_hex z' ->
  sqlite3_uuid_blob (SQLITE_TEXT z) junk = sqlite3_uuid_blob (SQLITE_TEXT z') junk'
  /\ sqlite3_uuid_str (SQLITE_TEXT z) junk = sqlite3_uuid_str (SQLITE_TEXT z') junk'.
Proof.
  intros Heq.
  assert (Hp : parse (c_text z) = parse (c_text z')).
  { rewrite <- (parse_tolower (c_text z)), <- (parse_tolower (c_text z')).
    by rewrite <- !c_text_tolower, Heq. }
  by rewrite !uuid_blob_text, !uuid_str_text, Hp.
Qed.

Lemma converters_ignore_case_witness :
  map tolower_hex (chars "A0eEbC99-9c0B-4Ef8-bb6D-6BB9bd380a1G")
  = map tolower_hex (chars "a0EebC99-9C0b-4eF8-Bb6d-6bb9BD380A1G")
  /\ sqlite3_uuid_blob (SQLITE_TEXT (chars "A0eEbC99-9c0B-4Ef8-bb6D-6BB9bd380a1G"))
       (fun _ => 0)
     = sqlite3_uuid_blob (SQLITE_TEXT (chars "a0EebC99-9C0b-4eF8-Bb6d-6bb9BD380A1G"))
         (fun _ => 1)
  /\ sqlite3_uuid_str (SQLITE_TEXT (chars "A0eEbC99-9c0B-4Ef8-bb6D-6BB9bd380a1G"))
       (fun _ => 0)
     = sqlite3_uuid_str (SQLITE_TEXT (chars "a0EebC99-9C0b-4eF8-Bb6d-6bb9BD380A1G"))
         (fun _ => 1).
Proof.
  split; [reflexivity|].
  exact (converters_ignore_case
           (chars "A0eEbC99-9c0B-4Ef8-bb6D-6BB9bd380a1G")
           (chars "a0EebC99-9C0b-4eF8-Bb6d-6bb9BD380A1G")
           (fun _ => 0) (fun _ => 1) eq_refl).
Defined.

Lemma scan_written_bytes n : forall s, bytes (scan_written n s).
Proof.
  induction n as [|n IH]; intros s; simpl; [constructor|].
  destruct (skip_hyphen s) as [|c0 [|c1 t]]; try constructor.
  destruct (isxdigit c0 && isxdigit c1); constructor;
    [apply byte_of_range | apply IH].
Qed.

(** X15.  On a terminated string the parser overwrites a prefix of the
    16-byte output buffer and nothing else.  Let the string, after its
    optional opening brace, start with the valid byte groups [gs], as many
    as there are up to 16, and go on with [t]: then the output buffer
    holds the bytes of [gs] followed by what it held before from the
    offset [length gs] on, and the parser returns 0 exactly when there are
    16 groups and [t] is empty or a single closing brace.  Every string
    has such a start. *)
Theorem parser_writes_prefix (s aBlob : list Z) :
  nul_free s -> length aBlob = 16%nat ->
  (exists gs t,
     skip_char 123 s = groups_chars gs ++ t /\ forallb grp_ok gs = true
     /\ (length gs <= 16)%nat
     /\ ((length gs < 16)%nat -> hex_pair_at (skip_hyphen t) = false))
  /\ (forall gs t,
        skip_char 123 s = groups_chars gs ++ t -> forallb grp_ok gs = true ->
        (length gs <= 16)%nat ->
        ((length gs < 16)%nat -> hex_pair_at (skip_hyphen t) = false) ->
        sqlite3_uuid_str_to_blob (c_str s) 0 aBlob
        = Done (if (length gs =? 16)%nat
                   && bool_decide (skip_char 125 t = [])
                then 0 else 1,
                map grp_byte gs ++ drop (length gs) aBlob)).
Proof.
  intros Hs Hlen. split; [apply scan_decompose|].
  intros gs t Hsk Hok Hl Hmax. unfold c_str.
  rewrite str_to_blob_run by done.
  rewrite (written_groups s gs t) by done.
  rewrite (parse_groups s gs t) by done.
  destruct (length gs =? 16)%nat; [|done].
  by destruct (skip_char 125 t).
Qed.

Lemma parser_writes_prefix_witness :
  (nul_free (chars "{a0ee-bc9") /\ length (replicate 16 7) = 16%nat)
  /\ sqlite3_uuid_str_to_blob (c_str (chars "{a0ee-bc9")) 0 (replicate 16 7)
     = Done (1, [160; 238; 188] ++ replicate 13 7).
Proof.
  assert (Hs : nul_free (chars "{a0ee-bc9")) by (by apply nul_free_check).
  split; [exact (conj Hs eq_refl)|].
  exact (proj2 (parser_writes_prefix (chars "{a0ee-bc9") (replicate 16 7)
                  Hs eq_refl)
           [Grp false 97 48; Grp false 101 101; Grp true 98 99] (chars "9")
           eq_refl eq_refl ltac:(simpl; lia) (fun _ => eq_refl)).
Defined.

Lemma c_text_cut s rest : nul_free s -> c_text (s ++ 0 :: rest) = s.
Proof.
  induction 1 as [|c s Hc _ IH]; simpl; [done|].
  replace (c =? 0) with false by lia. by rewrite IH.
Qed.

(** X16.  A text is read up to its first zero byte: whatever follows an
    embedded zero is ignored, so that a text made of a UUID, a zero byte
    and anything else converts like the UUID alone. *)
Theorem text_ends_at_first_zero (s rest : list Z) (junk junk' : nat -> Z) :
  nul_free s ->
  sqlite3_uuid_blob (SQLITE_TEXT (s ++ 0 :: rest)) junk
  = sqlite3_uuid_blob (SQLITE_TEXT s) junk'
  /\ sqlite3_uuid_str (SQLITE_TEXT (s ++ 0 :: rest)) junk
     = sqlite3_uuid_str (SQLITE_TEXT s) junk'.
Proof.
  intros Hs.
  by rewrite !uuid_blob_text, !uuid_str_text, c_text_cut, c_text_id.
Qed.

Lemma text_ends_at_first_zero_witness :
  nul_free canon
  /\ sqlite3_uuid_blob (SQLITE_TEXT (canon ++ 0 :: chars "zz")) (fun _ => 0)
     = sqlite3_uuid_blob (SQLITE_TEXT canon) (fun _ => 1)
  /\ sqlite3_uuid_str (SQLITE_TEXT (canon ++ 0 :: chars "zz")) (fun _ => 0)
     = sqlite3_uuid_str (SQLITE_TEXT canon) (fun _ => 1).
Proof.
  assert (Hs : nul_free canon) by (by apply nul_free_check).
  split; [exact Hs|].
  exact (text_ends_at_first_zero canon (chars "zz") (fun _ => 0) (fun _ => 1) Hs).
Defined.
